(** * GPK archive reader: a shallow embedding of [gpk.cpp] / [gpk.h]

  The development follows the order of the source: the packed record
  layouts of [gpk.h], the UTF-16LE name decoder, the keystream XOR, the
  length-prefixed zlib envelope, the input stream used by [GPK::load] and
  [GPK::unpack_all], the entry-stream parse loop, and the three public
  operations of the [GPK] class.

  Conventions.
  - [std::vector<uint8_t>] is a [list Z] whose elements are bytes.
  - [std::string] is a [string]; a [char] is an [ascii], compared through
    its byte value (the tests of the source on [char] give the same answer
    for a signed and for an unsigned [char]).
  - [size_t] and [uint32_t] arithmetic is written with its wrap-around.
  - For [load], which only reads one file, a file system is a finite map
    from paths to file contents.  Extraction creates directories and
    files while it reads: there the file system is an environment that
    answers each call, and the effect is the list of calls made. *)

From Stdlib Require Import ZArith Ascii String List Lia.
From stdpp Require Import base decidable option list gmap strings.

Local Open Scope Z_scope.

(* ===================================================================== *)
(** ** Machine integers *)
(* ===================================================================== *)

Module Machine.

(** An unsigned [w]-bit integer keeps the low [w] bits. *)
Definition wrap (w : Z) (x : Z) : Z := x mod 2 ^ w.

Definition wrap8 : Z -> Z := wrap 8.
Definition wrap16 : Z -> Z := wrap 16.
Definition wrap32 : Z -> Z := wrap 32.
Definition wrap64 : Z -> Z := wrap 64.

(** [size_t] addition and subtraction (64 bits). *)
Definition size_add (a b : Z) : Z := wrap64 (a + b).
Definition size_sub (a b : Z) : Z := wrap64 (a - b).

(** Conversion of a 64-bit pattern to the signed [std::streamoff]. *)
Definition to_int64 (x : Z) : Z :=
  if x <? 2 ^ 63 then x else x - 2 ^ 64.

(** [std::vector::size()]. *)
Definition vsize {A} (v : list A) : Z := Z.of_nat (length v).

(** [std::vector<uint8_t>::max_size()]: sizes are bounded by
    [PTRDIFF_MAX]. *)
Definition vector_max_size : Z := 2 ^ 63 - 1.

(** The bytes [v[off], ..., v[off+len-1]] that exist. *)
Definition slice {A} (v : list A) (off len : Z) : list A :=
  take (Z.to_nat len) (drop (Z.to_nat off) v).

(** [v[i]] for an in-range index (0 stands for a read out of the model). *)
Definition at_ (v : list Z) (i : Z) : Z :=
  default 0 (v !! Z.to_nat i).

(** The unsigned value of a run of bytes read in little-endian order, as
    [memcpy] into an integer gives it on the little-endian targets of the
    program. *)
Definition le_uint (bs : list Z) : Z :=
  foldr (fun b acc => b + 256 * acc) 0 bs.

Definition is_byte (b : Z) : Prop := 0 <= b < 256.

End Machine.
Import Machine.

(* ===================================================================== *)
(** ** Record layouts of [gpk.h] under [#pragma pack(1)] *)
(* ===================================================================== *)

Module Layout.

Inductive ctype : Type :=
| c_char
| c_uint16
| c_uint32
| c_char_array (n : nat).

Definition sizeof_ctype (t : ctype) : Z :=
  match t with
  | c_char => 1
  | c_uint16 => 2
  | c_uint32 => 4
  | c_char_array n => Z.of_nat n
  end.

(** A packed struct has no padding: its size is the sum of the sizes of
    its members, and a member starts where the previous one ends. *)
Definition sizeof_packed (fields : list (string * ctype)) : Z :=
  foldr (fun f acc => sizeof_ctype (snd f) + acc) 0 fields.

Fixpoint offsetof (fields : list (string * ctype)) (member : string)
  : option Z :=
  match fields with
  | [] => None
  | (m, t) :: rest =>
      if String.eqb m member then Some 0
      else (fun o => sizeof_ctype t + o) <$> offsetof rest member
  end.

Definition GPKsig_fields : list (string * ctype) :=
  [ ("sig0", c_char_array 12);
    ("pidx_length", c_uint32);
    ("sig1", c_char_array 16) ]%string.

Definition GPKEntryHeader_fields : list (string * ctype) :=
  [ ("sub_version", c_uint16);
    ("version", c_uint16);
    ("zero", c_uint16);
    ("offset", c_uint32);
    ("comprlen", c_uint32);
    ("dflt", c_char_array 4);
    ("uncomprlen", c_uint32);
    ("comprheadlen", c_char) ]%string.

Definition sizeof_GPKsig : Z := sizeof_packed GPKsig_fields.
Definition sizeof_GPKEntryHeader : Z := sizeof_packed GPKEntryHeader_fields.
Definition sizeof_uint16_t : Z := sizeof_ctype c_uint16.

Definition typeof (fields : list (string * ctype)) (member : string)
  : option ctype :=
  snd <$> find (fun f => String.eqb (fst f) member) fields.

(** The bytes of member [member] inside the raw image [raw] of a struct. *)
Definition member_bytes (fields : list (string * ctype)) (member : string)
    (raw : list Z) : list Z :=
  match offsetof fields member, typeof fields member with
  | Some o, Some t => slice raw o (sizeof_ctype t)
  | _, _ => []
  end.

End Layout.
Import Layout.

(** [GPKsig], the 32-byte trailer. *)
Record GPKsig : Type := mkGPKsig {
  sig0 : list Z;
  pidx_length : Z;
  sig1 : list Z
}.

(** [GPKEntryHeader]. *)
Record GPKEntryHeader : Type := mkGPKEntryHeader {
  sub_version : Z;
  version : Z;
  zero : Z;
  offset : Z;
  comprlen : Z;
  dflt : list Z;
  uncomprlen : Z;
  comprheadlen : Z
}.

(** [GPKentry]. *)
Record GPKentry : Type := mkGPKentry {
  name : string;
  header : GPKEntryHeader
}.

(** The data members of [class GPK]: [entries] and [name] (here
    [archive_name], since [name] is the member of [GPKentry]). *)
Record GPK : Type := mkGPK {
  entries : list GPKentry;
  archive_name : string
}.

(** Reading a struct from its raw bytes: what [read(&sign, sizeof(GPKsig))]
    and [memcpy(&entry.header, ..., sizeof(GPKEntryHeader))] leave in the
    members. *)
Definition GPKsig_of_bytes (raw : list Z) : GPKsig :=
  {| sig0 := member_bytes GPKsig_fields "sig0" raw;
     pidx_length := le_uint (member_bytes GPKsig_fields "pidx_length" raw);
     sig1 := member_bytes GPKsig_fields "sig1" raw |}.

Definition GPKEntryHeader_of_bytes (raw : list Z) : GPKEntryHeader :=
  let member m := member_bytes GPKEntryHeader_fields m raw in
  {| sub_version := le_uint (member "sub_version");
     version := le_uint (member "version");
     zero := le_uint (member "zero");
     offset := le_uint (member "offset");
     comprlen := le_uint (member "comprlen");
     dflt := member "dflt";
     uncomprlen := le_uint (member "uncomprlen");
     comprheadlen := le_uint (member "comprheadlen") |}.

(* ===================================================================== *)
(** ** Characters and strings *)
(* ===================================================================== *)

(** [static_cast<char>(x)]: the low 8 bits. *)
Definition char_of (x : Z) : ascii := ascii_of_N (Z.to_N (wrap8 x)).

(** The byte value of a [char]. *)
Definition byte_of (c : ascii) : Z := Z.of_N (N_of_ascii c).

(** The backslash character (byte 92). *)
Definition backslash : ascii := "092"%char.

Fixpoint string_of_bytes (bs : list Z) : string :=
  match bs with
  | [] => EmptyString
  | b :: rest => String (char_of b) (string_of_bytes rest)
  end.

(* ===================================================================== *)
(** ** [GPK::utf16le_to_utf8] *)
(* ===================================================================== *)

(** [data[i * 2] | (data[i * 2 + 1] << 8)] stored in a [uint16_t]. *)
Definition utf16_at (data : list Z) (i : Z) : Z :=
  wrap16 (Z.lor (at_ data (i * 2)) (Z.shiftl (at_ data (i * 2 + 1)) 8)).

Definition is_high_surrogate (u : Z) : bool :=
  (55296 <=? u) && (u <=? 56319).   (* 0xD800 .. 0xDBFF *)

Definition is_low_surrogate (u : Z) : bool :=
  (56320 <=? u) && (u <=? 57343).   (* 0xDC00 .. 0xDFFF *)

(** The four bytes appended for a valid surrogate pair. *)
Definition utf8_pair (utf16_char low_surrogate : Z) : list Z :=
  let codepoint :=
    wrap32 (65536 + Z.shiftl (Z.land utf16_char 1023) 10
            + Z.land low_surrogate 1023) in
  [ Z.lor 240 (Z.shiftr codepoint 18);
    Z.lor 128 (Z.land (Z.shiftr codepoint 12) 63);
    Z.lor 128 (Z.land (Z.shiftr codepoint 6) 63);
    Z.lor 128 (Z.land codepoint 63) ].

(** The bytes appended by the "regular BMP character" branch. *)
Definition utf8_bmp (utf16_char : Z) : list Z :=
  if utf16_char <? 128 then
    [ utf16_char ]
  else if utf16_char <? 2048 then
    [ Z.lor 192 (Z.shiftr utf16_char 6);
      Z.lor 128 (Z.land utf16_char 63) ]
  else
    [ Z.lor 224 (Z.shiftr utf16_char 12);
      Z.lor 128 (Z.land (Z.shiftr utf16_char 6) 63);
      Z.lor 128 (Z.land utf16_char 63) ].

(** The loop over the code units [i = 0 .. length_in_chars - 1]: a high
    surrogate that has a next unit ([i + 1 < length_in_chars]) which is a
    low surrogate consumes both ([i++; continue]); every other unit goes
    through the BMP branch. *)
Fixpoint utf8_of_units (units : list Z) : list Z :=
  match units with
  | [] => []
  | utf16_char :: rest =>
      match rest with
      | low_surrogate :: rest' =>
          if is_high_surrogate utf16_char && is_low_surrogate low_surrogate
          then utf8_pair utf16_char low_surrogate ++ utf8_of_units rest'
          else utf8_bmp utf16_char ++ utf8_of_units rest
      | [] => utf8_bmp utf16_char ++ utf8_of_units rest
      end
  end.

Definition utf16le_to_utf8 (data : list Z) (length_in_chars : Z) : string :=
  string_of_bytes
    (utf8_of_units
       ((fun i => utf16_at data (Z.of_nat i))
          <$> seq 0 (Z.to_nat length_in_chars))).

(* ===================================================================== *)
(** ** Name clean-up in [GPK::load] *)
(* ===================================================================== *)

(** [filename.erase(std::find(begin, end, '\0'), end)]: the name is cut at
    its first NUL character. *)
Fixpoint erase_from_nul (filename : string) : string :=
  match filename with
  | EmptyString => EmptyString
  | String c rest =>
      if byte_of c =? 0 then EmptyString
      else String c (erase_from_nul rest)
  end.

(** The first test of the loop body:
    [c >= 32 && c <= 126] and [c] is none of the seven characters
    less-than, greater-than, colon, double quote, vertical bar, question
    mark, asterisk (bytes 60, 62, 58, 34, 124, 63, 42). *)
Definition is_valid_char (c : ascii) : bool :=
  let b := byte_of c in
  (32 <=? b) && (b <=? 126)
  && negb (b =? 60) && negb (b =? 62) && negb (b =? 58)   (* < > : *)
  && negb (b =? 34) && negb (b =? 124)                    (* dquote | *)
  && negb (b =? 63) && negb (b =? 42).                    (* ? * *)

(** The second test: [c] is a backslash (92) or a slash (47). *)
Definition is_separator (c : ascii) : bool :=
  let b := byte_of c in (b =? 92) || (b =? 47).

(** [for (char c : filename)] building [cleanFilename]. *)
Fixpoint clean_chars (filename : string) : string :=
  match filename with
  | EmptyString => EmptyString
  | String c rest =>
      if is_valid_char c then String c (clean_chars rest)
      else if is_separator c then String "/"%char (clean_chars rest)
      else clean_chars rest
  end.

Definition clean_filename (filename : string) : string :=
  clean_chars (erase_from_nul filename).

(* ===================================================================== *)
(** ** The keystream XOR *)
(* ===================================================================== *)

Definition CIPHERCODE : list Z :=
  [ 130; 238; 29; 179;     (* 0x82, 0xEE, 0x1D, 0xB3 *)
    87; 233; 44; 194;      (* 0x57, 0xE9, 0x2C, 0xC2 *)
    47; 84; 123; 16;       (* 0x2F, 0x54, 0x7B, 0x10 *)
    76; 154; 117; 73 ].    (* 0x4C, 0x9A, 0x75, 0x49 *)

(** [for (i = from; i < size; i++) data[i] ^= CIPHERCODE[i % 16]], on the
    bytes from index [i] on.  The result of [^] is stored in a [uint8_t]. *)
Fixpoint decrypt_from (i : Z) (data : list Z) : list Z :=
  match data with
  | [] => []
  | b :: rest =>
      wrap8 (Z.lxor b (at_ CIPHERCODE (i mod 16)))
        :: decrypt_from (i + 1) rest
  end.

Definition decrypt (data : list Z) : list Z := decrypt_from 0 data.

(* ===================================================================== *)
(** ** zlib's [uncompress] *)
(* ===================================================================== *)

(** zlib is an external codec.  [GPK::decompress_data] is embedded over an
    arbitrary [uncompress : capacity -> source -> (return code, bytes
    written)]: for [uncompress(dest, &destLen, src, srcLen)] called with
    [destLen = capacity] the first component is the [int] returned and the
    second the bytes stored at [dest[0 .. destLen)] on return. *)
Definition codec : Type := Z -> list Z -> Z * list Z.

Definition Z_OK : Z := 0.
Definition Z_DATA_ERROR : Z := -3.
Definition Z_MEM_ERROR : Z := -4.
Definition Z_BUF_ERROR : Z := -5.

(** zlib never writes more than the capacity it is given. *)
Definition codec_respects_capacity (uncompress : codec) : Prop :=
  forall capacity source produced,
    uncompress capacity source = (Z_OK, produced) ->
    vsize produced <= capacity.

(** A concrete codec, for running the reader on concrete archives: zlib's
    [uncompress] on the streams whose deflate blocks are all stored
    (uncompressed) blocks, RFC 1950 and RFC 1951 section 3.2.4.  Blocks
    with Huffman codes are outside this instance and are reported as a data
    error. *)
Module StoredZlib.

Fixpoint adler32_from (a b : Z) (bs : list Z) : Z :=
  match bs with
  | [] => b * 65536 + a
  | x :: rest =>
      let a' := (a + x) mod 65521 in
      adler32_from a' ((b + a') mod 65521) rest
  end.

Definition adler32 (bs : list Z) : Z := adler32_from 1 0 bs.

Inductive inflate_result : Type :=
| Stream_end (out rest : list Z)
| Stream_error (code : Z).

(** One iteration per block; a block takes at least five bytes of input,
    so [length source] iterations are enough for any source. *)
Fixpoint inflate_stored (fuel : nat) (capacity : Z) (source out : list Z)
  : inflate_result :=
  match fuel with
  | O => Stream_error Z_DATA_ERROR
  | S fuel' =>
      match source with
      | hdr :: l0 :: l1 :: n0 :: n1 :: body =>
          let bfinal := Z.land hdr 1 in
          let btype := Z.land (Z.shiftr hdr 1) 3 in
          let len := l0 + 256 * l1 in
          let nlen := n0 + 256 * n1 in
          if negb (btype =? 0) then Stream_error Z_DATA_ERROR
          else if negb (Z.lxor len nlen =? 65535) then
            Stream_error Z_DATA_ERROR
          else if vsize body <? len then Stream_error Z_DATA_ERROR
          else
            let out' := out ++ slice body 0 len in
            if capacity <? vsize out' then Stream_error Z_BUF_ERROR
            else if bfinal =? 1 then
              Stream_end out' (drop (Z.to_nat len) body)
            else inflate_stored fuel' capacity
                   (drop (Z.to_nat len) body) out'
      | _ => Stream_error Z_DATA_ERROR
      end
  end.

Definition uncompress : codec := fun capacity source =>
  match source with
  | cmf :: flg :: deflate =>
      if (Z.land cmf 15 =? 8) && (Z.shiftr cmf 4 <=? 7)
         && ((cmf * 256 + flg) mod 31 =? 0) && (Z.land flg 32 =? 0)
      then
        match inflate_stored (length deflate) capacity deflate [] with
        | Stream_end out (a3 :: a2 :: a1 :: a0 :: _) =>
            if ((a3 * 256 + a2) * 256 + a1) * 256 + a0 =? adler32 out
            then (Z_OK, out)
            else (Z_DATA_ERROR, [])
        | Stream_end _ _ => (Z_DATA_ERROR, [])
        | Stream_error code => (code, [])
        end
      else (Z_DATA_ERROR, [])
  | _ => (Z_DATA_ERROR, [])
  end.

End StoredZlib.

(* ===================================================================== *)
(** ** [GPK::decompress_data] *)
(* ===================================================================== *)

(** The two [std::runtime_error]s thrown by [decompress_data]. *)
Inductive runtime_error : Type :=
| Invalid_uncompressed_size
| Decompression_failed (ret : Z).

(** [std::vector::resize(n)] on a vector of bytes. *)
Definition resize (v : list Z) (n : Z) : list Z :=
  take (Z.to_nat n) v ++ replicate (Z.to_nat n - length v)%nat 0.

(** Storing [written] at the start of the buffer [dest]. *)
Definition store (dest written : list Z) : list Z :=
  written ++ drop (length written) dest.

(** [(d[0] << 24) | (d[1] << 16) | (d[2] << 8) | d[3]] stored in a
    [uint32_t]. *)
Definition declared_size (compressed_data : list Z) : Z :=
  wrap32 (Z.lor (Z.lor (Z.lor (Z.shiftl (at_ compressed_data 0) 24)
                              (Z.shiftl (at_ compressed_data 1) 16))
                       (Z.shiftl (at_ compressed_data 2) 8))
                (at_ compressed_data 3)).

Definition decompress_data (uncompress : codec) (compressed_data : list Z)
  : runtime_error + list Z :=
  if vsize compressed_data <? 4 then
    inr compressed_data
  else
    let uncompressed_size := declared_size compressed_data in
    if uncompressed_size =? 0 then
      inl Invalid_uncompressed_size
    else
      let result := replicate (Z.to_nat uncompressed_size) 0 in
      let '(ret, written) :=
        uncompress uncompressed_size (drop 4 compressed_data) in
      let dest_len := vsize written in
      let result := store result written in
      if negb (ret =? Z_OK) then
        inl (Decompression_failed ret)
      else
        inr (resize result dest_len).

(* ===================================================================== *)
(** ** [std::ifstream] *)
(* ===================================================================== *)

(** An open binary input stream: the file's bytes, the get position, the
    two state bits the program can reach, and the count of the last
    unformatted read. *)
Record ifstream : Type := mkifstream {
  file : list Z;
  gpos : Z;
  failbit : bool;
  eofbit : bool;
  last_gcount : Z
}.

Definition good (s : ifstream) : bool := negb (failbit s || eofbit s).

(** [std::ifstream package(path, std::ios::binary)]; [None] when
    [is_open()] is false. *)
Definition ifstream_open (fs : gmap string (list Z)) (path : string)
  : option ifstream :=
  (fun bytes => mkifstream bytes 0 false false 0) <$> fs !! path.

(** [seekg(pos)]: clears [eofbit]; does nothing when the stream has
    failed; a negative position makes the seek fail and sets [failbit]. *)
Definition seekg (s : ifstream) (pos : Z) : ifstream :=
  if failbit s then
    mkifstream (file s) (gpos s) true false (last_gcount s)
  else if pos <? 0 then
    mkifstream (file s) (gpos s) true false (last_gcount s)
  else
    mkifstream (file s) pos false false (last_gcount s).

(** [seekg(0, std::ios::end)]. *)
Definition seekg_end (s : ifstream) : ifstream :=
  if failbit s then
    mkifstream (file s) (gpos s) true false (last_gcount s)
  else
    mkifstream (file s) (vsize (file s)) false false (last_gcount s).

(** [tellg()]. *)
Definition tellg (s : ifstream) : Z :=
  if failbit s then -1 else gpos s.

(** [read(buffer, n)]: on a stream that is not good nothing is extracted
    and [failbit] is set; otherwise the bytes available from the get
    position, at most [n], are stored at the start of [buffer], and a
    short count sets [eofbit] and [failbit]. *)
Definition read (s : ifstream) (buffer : list Z) (n : Z)
  : list Z * ifstream :=
  if good s then
    let got := slice (file s) (gpos s) n in
    let count := vsize got in
    (store buffer got,
     mkifstream (file s) (gpos s + count)
       (count <? n) (count <? n) count)
  else
    (buffer, mkifstream (file s) (gpos s) true (eofbit s) 0).

Definition gcount (s : ifstream) : Z := last_gcount s.

(* ===================================================================== *)
(** ** The entry-stream parse loop of [GPK::load] *)
(* ===================================================================== *)

(** What one execution of the loop body does: leave the loop ([break]), or
    reach the end of the body (also through [continue]) with a new cursor
    and entry list. *)
Inductive body_result : Type :=
| Break
| Continue (pos : Z) (entries : list GPKentry).

(** The [uint16_t] length prefix read by [memcpy] at [pos]. *)
Definition filename_len_at (uncompressedData : list Z) (pos : Z) : Z :=
  le_uint (slice uncompressedData pos sizeof_uint16_t).

Definition parse_body (uncompressedData : list Z) (pos : Z)
    (entries : list GPKentry) : body_result :=
  if size_add pos sizeof_uint16_t >? vsize uncompressedData then Break
  else
    let filename_len := filename_len_at uncompressedData pos in
    let pos := size_add pos sizeof_uint16_t in
    if filename_len =? 0 then Break
    else if size_add pos (filename_len * 2) >? vsize uncompressedData
    then Break
    else
      let filename :=
        utf16le_to_utf8 (drop (Z.to_nat pos) uncompressedData)
          filename_len in
      let pos := size_add pos (filename_len * 2) in
      let cleanFilename := clean_filename filename in
      if String.eqb cleanFilename EmptyString then
        Continue (size_add pos sizeof_GPKEntryHeader) entries
      else if size_add pos sizeof_GPKEntryHeader >? vsize uncompressedData
      then Break
      else
        let entry :=
          {| name := cleanFilename;
             header :=
               GPKEntryHeader_of_bytes
                 (slice uncompressedData pos sizeof_GPKEntryHeader) |} in
        Continue (size_add pos sizeof_GPKEntryHeader) (entries ++ [entry]).

(** [while (pos < uncompressedData.size()) body].  [fuel] bounds the number
    of executions of the body; [None] means the bound was reached with the
    loop still running. *)
Fixpoint parse_loop (fuel : nat) (uncompressedData : list Z) (pos : Z)
    (entries : list GPKentry) : option (list GPKentry) :=
  if pos <? vsize uncompressedData then
    match fuel with
    | O => None
    | S fuel' =>
        match parse_body uncompressedData pos entries with
        | Break => Some entries
        | Continue pos' entries' =>
            parse_loop fuel' uncompressedData pos' entries'
        end
    end
  else Some entries.

(** The number of executions of the body from cursor [pos], counted up to
    the bound [fuel]. *)
Fixpoint parse_iterations (fuel : nat) (uncompressedData : list Z) (pos : Z)
    (entries : list GPKentry) : nat :=
  if pos <? vsize uncompressedData then
    match fuel with
    | O => O
    | S fuel' =>
        match parse_body uncompressedData pos entries with
        | Break => 1
        | Continue pos' entries' =>
            S (parse_iterations fuel' uncompressedData pos' entries')
        end
    end
  else O.

(* ===================================================================== *)
(** ** [GPK::load] *)
(* ===================================================================== *)

(** A C string literal: its characters and the terminating NUL. *)
Definition c_str (s : string) : list Z :=
  (byte_of <$> list_ascii_of_string s) ++ [0].

Fixpoint strlen (s : list Z) : nat :=
  match s with
  | [] => O
  | c :: rest => if c =? 0 then O else S (strlen rest)
  end.

(** [strncmp(s1, s2, n)]: the difference of the first pair of characters
    that differ among the first [n], 0 when there is none before the end
    of the strings. *)
Fixpoint strncmp (s1 s2 : list Z) (n : nat) : Z :=
  match n with
  | O => 0
  | S n' =>
      let c1 := at_ s1 0 in
      let c2 := at_ s2 0 in
      if negb (c1 =? c2) then c1 - c2
      else if c1 =? 0 then 0
      else strncmp (tail s1) (tail s2) n'
  end.

Definition GPK_TAILER_IDENT0 : list Z := c_str "STKFile0PIDX".
Definition GPK_TAILER_IDENT1 : list Z := c_str "STKFile0PACKFILE".

(** Opening the package and reading the trailer: [None] on the two early
    [return false], otherwise the stream, the file size and the trailer. *)
Definition read_signature (fs : gmap string (list Z)) (file_name : string)
  : option (ifstream * Z * GPKsig) :=
  match ifstream_open fs file_name with
  | None => None
  | Some package =>
      let package := seekg_end package in
      let fileSize := tellg package in
      let package :=
        seekg package (to_int64 (size_sub fileSize sizeof_GPKsig)) in
      let '(raw, package) :=
        read package (replicate (Z.to_nat sizeof_GPKsig) 0) sizeof_GPKsig in
      let sign := GPKsig_of_bytes raw in
      if negb (gcount package =? sizeof_GPKsig)
         || negb (strncmp GPK_TAILER_IDENT0 (sig0 sign)
                    (strlen GPK_TAILER_IDENT0) =? 0)
         || negb (strncmp GPK_TAILER_IDENT1 (sig1 sign)
                    (strlen GPK_TAILER_IDENT1) =? 0)
      then None
      else Some (package, fileSize, sign)
  end.

(** The position given to the second [seekg]:
    [fileSize - sizeof(GPKsig) - sign.pidx_length], computed in [size_t]
    and converted to a stream offset. *)
Definition index_offset (fileSize pidx_length : Z) : Z :=
  to_int64 (size_sub (size_sub fileSize sizeof_GPKsig) pidx_length).

(** Reading the index blob into [compressedData]. *)
Definition read_index (package : ifstream) (fileSize : Z) (sign : GPKsig)
  : list Z * ifstream :=
  let package := seekg package (index_offset fileSize (pidx_length sign)) in
  let compressedData := replicate (Z.to_nat (pidx_length sign)) 0 in
  read package compressedData (pidx_length sign).

(** From the blob to the end of [load]: decrypt, decompress, parse.  The
    outer [None] stands for a parse loop that does not finish. *)
Definition load_index (uncompress : codec) (this : GPK)
    (compressedData : list Z) : option (bool * GPK) :=
  let compressedData := decrypt compressedData in
  match decompress_data uncompress compressedData with
  | inl _ => Some (false, this)
  | inr uncompressedData =>
      match parse_loop (length uncompressedData) uncompressedData 0
              (entries this) with
      | None => None
      | Some entries' =>
          Some (true, {| entries := entries';
                         archive_name := archive_name this |})
      end
  end.

Definition load (uncompress : codec) (fs : gmap string (list Z))
    (this : GPK) (file_name : string) : option (bool * GPK) :=
  let this := {| entries := entries this; archive_name := file_name |} in
  match read_signature fs file_name with
  | None => Some (false, this)
  | Some (package, fileSize, sign) =>
      load_index uncompress this (fst (read_index package fileSize sign))
  end.

(* ===================================================================== *)
(** ** [GPK::getName] *)
(* ===================================================================== *)

(** [s.find_last_of(chars)], [None] for [npos]; [i] is the index of the
    first character of [s]. *)
Fixpoint find_last_of_from (chars : list ascii) (s : string) (i : nat)
  : option nat :=
  match s with
  | EmptyString => None
  | String c rest =>
      match find_last_of_from chars rest (S i) with
      | Some j => Some j
      | None => if bool_decide (c ∈ chars) then Some i else None
      end
  end.

Definition find_last_of (chars : list ascii) (s : string) : option nat :=
  find_last_of_from chars s 0.

(** The computation of [getName] on the stored path. *)
Definition display_name (path : string) : string :=
  let filename :=
    match find_last_of [ backslash; "/"%char ] path with
    | Some lastSeparator =>
        String.substring (lastSeparator + 1)
          (String.length path - (lastSeparator + 1)) path
    | None => path
    end in
  match find_last_of [ "."%char ] filename with
  | Some dotPos => String.substring 0 dotPos filename
  | None => filename
  end.

Definition getName (this : GPK) : string := display_name (archive_name this).

(* ===================================================================== *)
(** ** [GPK::unpack_all] *)
(* ===================================================================== *)

(** Extraction acts on the file system of the machine: it creates
    directories and files there while it reads the archive from the same
    file system.  What a path denotes, whether a directory can be created
    and whether a file opens are not decided by the program.  The file
    system is therefore an environment that answers every call from the
    calls made so far, and the effect of the program is the list of the
    calls it made, in order.  (The program does not test the result of
    writing to an open file, and no event tells it apart.) *)
Inductive fs_event : Type :=
| Create_directories (path : string)
      (* [std::filesystem::create_directories(path)] returned *)
| Create_directories_threw (path : string)
      (* it threw [std::filesystem::filesystem_error] *)
| Write_file (path : string) (bytes : list Z)
      (* [std::ofstream(path)] opened, [bytes] were written, closed *)
| Open_failed (path : string).
      (* [std::ofstream(path)] did not open *)

Record environment : Type := mkenvironment {
  (** the bytes of the file that [path] opens for reading after the
      calls [h]; [None] when it does not open *)
  file_bytes : list fs_event -> string -> option (list Z);
  (** whether [create_directories(path)] returns after the calls [h]
      rather than throws *)
  create_directories_ok : list fs_event -> string -> bool;
  (** whether [std::ofstream(path, std::ios::binary)] opens *)
  ofstream_opens : list fs_event -> string -> bool
}.

(** How a function is left: by returning, or by an exception that
    nothing in [gpk.cpp] or [filesystem.cpp] catches. *)
Inductive outcome : Type :=
| Returned
| Threw.

(** [std::filesystem::create_directories(path)]: [None] when it throws. *)
Definition create_directories (env : environment) (h : list fs_event)
    (path : string) : option (list fs_event) :=
  if create_directories_ok env h path
  then Some (h ++ [Create_directories path])
  else None.

(** The open stream delivers the bytes that the file holds now. *)
Definition with_file (s : ifstream) (bytes : list Z) : ifstream :=
  mkifstream bytes (gpos s) (failbit s) (eofbit s) (last_gcount s).

(** The body of the loop over [entries]: [inl] with the stream and the
    calls made when the body reaches its end, [inr] with the calls made
    when [create_directories] throws.  [parent_path p] stands for
    [std::filesystem::path(p).parent_path().string()], and [archive] is
    the path the package stream was opened on. *)
Definition unpack_entry (env : environment) (parent_path : string -> string)
    (archive dir : string) (st : ifstream * list fs_event)
    (entry : GPKentry)
  : (ifstream * list fs_event) + list fs_event :=
  let '(package, h) := st in
  let fullPath := String.append dir (name entry) in
  let dirPath := parent_path fullPath in
  match (if String.eqb dirPath EmptyString then Some h
         else create_directories env h dirPath) with
  | None => inr (h ++ [Create_directories_threw dirPath])
  | Some h =>
      let package :=
        with_file package (default [] (file_bytes env h archive)) in
      let package := seekg package (offset (header entry)) in
      let buffer := replicate (Z.to_nat (comprlen (header entry))) 0 in
      let '(buffer, package) :=
        read package buffer (comprlen (header entry)) in
      if ofstream_opens env h fullPath
      then inl (package, h ++ [Write_file fullPath buffer])
      else inl (package, h ++ [Open_failed fullPath])
  end.

(** [for (const GPKentry& entry : entries)]: an exception leaves the
    loop. *)
Fixpoint unpack_entries (env : environment) (parent_path : string -> string)
    (archive dir : string) (st : ifstream * list fs_event)
    (entries : list GPKentry) : outcome * list fs_event :=
  match entries with
  | [] => (Returned, snd st)
  | entry :: rest =>
      match unpack_entry env parent_path archive dir st entry with
      | inl st' => unpack_entries env parent_path archive dir st' rest
      | inr h => (Threw, h)
      end
  end.

(** [GPK::unpack_all(dir)], started after the calls [h]. *)
Definition unpack_all (env : environment) (parent_path : string -> string)
    (this : GPK) (dir : string) (h : list fs_event)
  : outcome * list fs_event :=
  match file_bytes env h (archive_name this) with
  | None => (Returned, h)
  | Some bytes =>
      let package := mkifstream bytes 0 false false 0 in
      match create_directories env h dir with
      | None => (Threw, h ++ [Create_directories_threw dir])
      | Some h =>
          unpack_entries env parent_path (archive_name this) dir
            (package, h) (entries this)
      end
  end.

(* ===================================================================== *)
(** ** [FileSystem] ([filesystem.cpp]) *)
(* ===================================================================== *)

(** [PATH_SEPARATOR], a backslash on Windows and a slash elsewhere. *)
Definition PATH_SEPARATOR (windows : bool) : ascii :=
  if windows then backslash else "/"%char.

Definition PATH_SEPARATOR_STR (windows : bool) : string :=
  String (PATH_SEPARATOR windows) EmptyString.

(** The data members of [class FileSystem]. *)
Record FileSystem : Type := mkFileSystem {
  root : string;
  gpks : list GPK
}.

(** [FileSystem::mountGPK]: a fresh handle is loaded and kept only when
    [load] returns true.  [None] stands for a load that does not
    return. *)
Definition mountGPK (uncompress : codec) (fs : gmap string (list Z))
    (this : FileSystem) (fileName : string) : option FileSystem :=
  match load uncompress fs (mkGPK [] EmptyString) fileName with
  | None => None
  | Some (true, gpk) =>
      Some {| root := root this; gpks := gpks this ++ [gpk] |}
  | Some (false, _) => Some this
  end.

(** [FileSystem::unpack_all]: every mounted archive is extracted under
    [root + getName() + PATH_SEPARATOR_STR]; an exception from an
    extraction leaves the loop. *)
Fixpoint FileSystem_unpack_gpks (windows : bool) (env : environment)
    (parent_path : string -> string) (root : string) (gpks : list GPK)
    (h : list fs_event) : outcome * list fs_event :=
  match gpks with
  | [] => (Returned, h)
  | gpk :: rest =>
      let outputDir :=
        String.append root
          (String.append (getName gpk) (PATH_SEPARATOR_STR windows)) in
      match unpack_all env parent_path gpk outputDir h with
      | (Returned, h') =>
          FileSystem_unpack_gpks windows env parent_path root rest h'
      | (Threw, h') => (Threw, h')
      end
  end.

Definition FileSystem_unpack_all (windows : bool) (env : environment)
    (parent_path : string -> string) (this : FileSystem)
    (h : list fs_event) : outcome * list fs_event :=
  FileSystem_unpack_gpks windows env parent_path (root this) (gpks this) h.

(** [s.find(c)], [None] for [npos]. *)
Fixpoint find_char_from (c : ascii) (s : string) (i : nat) : option nat :=
  match s with
  | EmptyString => None
  | String a rest =>
      if Ascii.eqb a c then Some i else find_char_from c rest (S i)
  end.

Definition find_char (c : ascii) (s : string) : option nat :=
  find_char_from c s 0.

(** [FileSystem::normalize_name(pkg, name)]. *)
Definition normalize_name_in (pkg name : string) : string :=
  if String.eqb (String.substring 0 5 pkg) "SysSe"
     || String.eqb (String.substring 0 2 pkg) "Se"
     || String.eqb (String.substring 0 5 pkg) "Voice"
  then String.append name ".ogg"
  else if String.eqb (String.substring 0 3 pkg) "BGM"
  then String.append name "_loop.ogg"
  else if String.eqb (String.substring 0 5 pkg) "Event"
  then String.append name ".PNG"
  else name.

(** [FileSystem::normalize_name(name)]. *)
Definition normalize_name (name : string) : string :=
  match find_char "/" name with
  | Some slashPos =>
      let pkg := String.substring 0 slashPos name in
      normalize_name_in pkg name
  | None => name
  end.

(* ===================================================================== *)
(** ** Specification-side definitions and concrete inputs *)
(* ===================================================================== *)

(** The characters of a string kept by a test, in order. *)
Fixpoint string_filter (keep : ascii -> bool) (s : string) : string :=
  match s with
  | EmptyString => EmptyString
  | String c rest =>
      if keep c then String c (string_filter keep rest)
      else string_filter keep rest
  end.

(** Control characters: below the space, and DEL. *)
Definition is_control (c : ascii) : bool :=
  (byte_of c <? 32) || (byte_of c =? 127).

(** The seven characters the specification calls filesystem-hostile. *)
Definition is_hostile (c : ascii) : bool :=
  bool_decide (byte_of c ∈ [60; 62; 58; 34; 124; 63; 42]).

(** Printable ASCII, [0x20 .. 0x7E]. *)
Definition is_printable (c : ascii) : bool :=
  (32 <=? byte_of c) && (byte_of c <=? 126).

(** Name sanitization in the words of the specification: control and
    hostile characters are dropped, backslash and slash become a slash,
    every other character stays. *)
Fixpoint sanitize_spec (s : string) : string :=
  match s with
  | EmptyString => EmptyString
  | String c rest =>
      if is_control c || is_hostile c then sanitize_spec rest
      else if is_separator c then String "/"%char (sanitize_spec rest)
      else String c (sanitize_spec rest)
  end.

(** The 18 bytes of [test_cipher] in [test.cpp], which wrap around the
    16-byte key. *)
Definition test_data : list Z :=
  [ 0; 17; 34; 51; 68; 85; 102; 119;
    136; 153; 170; 187; 204; 221; 238; 255;
    0; 17 ].

(** The zlib stream that [compress] at level 0 produces for the three
    bytes [abc]: header [78 01], one final stored block, Adler-32. *)
Definition zlib_abc : list Z :=
  [ 120; 1; 1; 3; 0; 252; 255; 97; 98; 99; 2; 77; 1; 39 ].

(** An entry header: sub-version 1, version 1, payload of 3 bytes at
    offset 0, not deflated. *)
Definition header_bytes : list Z :=
  [ 1; 0;  1; 0;  0; 0;  0; 0; 0; 0;  3; 0; 0; 0;
    32; 32; 32; 32;  0; 0; 0; 0;  0 ].

(** One record of the entry stream: the length prefix, the UTF-16LE code
    units of the name, the header. *)
Definition record_bytes (units : list Z) : list Z :=
  [ Z.of_nat (length units) mod 256; Z.of_nat (length units) / 256 ]
  ++ concat ((fun u => [u mod 256; u / 256]) <$> units)
  ++ header_bytes.

(** A record whose name is the single character [?]. *)
Definition record_question_mark : list Z := record_bytes [63].

(** A record whose name is [a], backslash, [b]. *)
Definition record_backslash : list Z := record_bytes [97; 92; 98].

(** Building an archive file around an entry stream, the way the reader
    expects it: payload bytes, then the encrypted envelope (big-endian
    size, zlib stream of one stored block), then the trailer. *)
Definition be32 (x : Z) : list Z :=
  [ x / 16777216 mod 256; x / 65536 mod 256; x / 256 mod 256; x mod 256 ].

Definition le32 (x : Z) : list Z :=
  [ x mod 256; x / 256 mod 256; x / 65536 mod 256; x / 16777216 mod 256 ].

Definition zlib_stored (payload : list Z) : list Z :=
  let len := vsize payload in
  [ 120; 1; 1; len mod 256; len / 256;
    255 - len mod 256; 255 - len / 256 ]
  ++ payload ++ be32 (StoredZlib.adler32 payload).

Definition trailer_bytes (pidx_length : Z) : list Z :=
  (byte_of <$> list_ascii_of_string "STKFile0PIDX")
  ++ le32 pidx_length
  ++ (byte_of <$> list_ascii_of_string "STKFile0PACKFILE").

Definition make_archive (payload index : list Z) : list Z :=
  let blob := decrypt (be32 (vsize index) ++ zlib_stored index) in
  payload ++ blob ++ trailer_bytes (vsize blob).

(** An archive with the payload [AA BB CC] and one entry named [a],
    backslash, [b]. *)
Definition archive_backslash : list Z :=
  make_archive [170; 187; 204] record_backslash.

(** A file that is only a trailer, declaring an index blob of one byte. *)
Definition archive_only_trailer : list Z := trailer_bytes 1.

(** The part of the index invariant that the clean-up loop establishes: a
    stored name is not empty and holds only printable ASCII characters
    other than the seven hostile ones. *)
Definition name_is_clean (n : string) : Prop :=
  n <> EmptyString
  /\ Forall (fun c => is_printable c = true /\ is_hostile c = false)
       (list_ascii_of_string n).

(** The name [a], backslash, [b]. *)
Definition name_backslash : string :=
  String "a" (String backslash (String "b" EmptyString)).

(** A file system with the archive above at [packs/a.GPK]. *)
Definition fs_backslash : gmap string (list Z) :=
  {[ "packs/a.GPK"%string := archive_backslash ]}.

(** A file system with the bare trailer at [packs/t.GPK]. *)
Definition fs_only_trailer : gmap string (list Z) :=
  {[ "packs/t.GPK"%string := archive_only_trailer ]}.






(** The paths an extraction under [dir] may pass to the file system:
    [dir] and the parent of [dir + name] to [create_directories], and
    [dir + name] to [std::ofstream], for the entries of the index. *)
Definition extraction_event (parent_path : string -> string) (dir : string)
    (entries : list GPKentry) (ev : fs_event) : Prop :=
  match ev with
  | Create_directories p | Create_directories_threw p =>
      p = dir
      \/ exists e, e ∈ entries
                   /\ p = parent_path (String.append dir (name e))
  | Write_file p _ | Open_failed p =>
      exists e, e ∈ entries /\ p = String.append dir (name e)
  end.

(** An environment in which the files to read are those of [fs] and stay
    as they are, every directory can be created and [writable] tells
    which output files open. *)
Definition quiet_env (fs : gmap string (list Z)) (writable : string -> bool)
  : environment :=
  {| file_bytes := fun _ path => fs !! path;
     create_directories_ok := fun _ _ => true;
     ofstream_opens := fun _ path => writable path |}.

(** An environment like [quiet_env] in which a directory cannot be
    created where a file has been written. *)
Definition file_blocks_env (fs : gmap string (list Z)) : environment :=
  {| file_bytes := fun _ path => fs !! path;
     create_directories_ok := fun h path =>
       negb (existsb
               (fun ev => match ev with
                          | Write_file p _ => String.eqb p path
                          | _ => false
                          end) h);
     ofstream_opens := fun _ _ => true |}.

(** The part of a path before its last slash: the parent path of a
    relative path whose components are separated by single slashes. *)
Definition parent_of (path : string) : string :=
  match find_last_of [ "/"%char ] path with
  | Some i => String.substring 0 i path
  | None => EmptyString
  end.


(** An entry header with the given payload range. *)
Definition header_at (off len : Z) : GPKEntryHeader :=
  {| sub_version := 1; version := 1; zero := 0;
     offset := off; comprlen := len;
     dflt := [32; 32; 32; 32]; uncomprlen := 0; comprheadlen := 0 |}.

(** A three-byte archive body and a handle with two entries: [x] claims
    two bytes from offset 2 (one byte past the end), [y] the first two
    bytes. *)
Definition fs_three_bytes : gmap string (list Z) :=
  {[ "packs/s.GPK"%string := [1; 2; 3] ]}.


Definition gpk_in_range : GPK :=
  {| entries := [ {| name := "y"; header := header_at 0 2 |};
                  {| name := "x"; header := header_at 1 2 |} ];
     archive_name := "packs/s.GPK" |}.


(** The characters of the two signature literals, without the NUL. *)
Definition ident0_bytes : list Z :=
  byte_of <$> list_ascii_of_string "STKFile0PIDX".

Definition ident1_bytes : list Z :=
  byte_of <$> list_ascii_of_string "STKFile0PACKFILE".

(** The UTF-16LE bytes of a run of 16-bit code units. *)
Definition utf16le_encode (units : list Z) : list Z :=
  concat ((fun u => [u mod 256; u / 256]) <$> units).

(** The code point a surrogate pair stands for. *)
Definition surrogate_code_point (high low : Z) : Z :=
  65536 + (high - 55296) * 1024 + (low - 56320).



(** Writing an index, the inverse of what the reader does.  The program
    only reads archives; these encoders state the layout it expects. *)
Definition le16 (x : Z) : list Z := [ x mod 256; x / 256 mod 256 ].

Definition encode_header (h : GPKEntryHeader) : list Z :=
  le16 (sub_version h) ++ le16 (version h) ++ le16 (zero h)
  ++ le32 (offset h) ++ le32 (comprlen h)
  ++ dflt h
  ++ le32 (uncomprlen h) ++ [ comprheadlen h ].

(** A header whose members fit their C types. *)
Definition header_in_range (h : GPKEntryHeader) : Prop :=
  0 <= sub_version h < 2 ^ 16
  /\ 0 <= version h < 2 ^ 16
  /\ 0 <= zero h < 2 ^ 16
  /\ 0 <= offset h < 2 ^ 32
  /\ 0 <= comprlen h < 2 ^ 32
  /\ length (dflt h) = 4%nat
  /\ 0 <= uncomprlen h < 2 ^ 32
  /\ 0 <= comprheadlen h < 2 ^ 8.

(** A name byte that the clean-up loop keeps: printable ASCII other than
    the seven hostile characters. *)
Definition kept_byte (c : Z) : Prop :=
  0 <= c < 128 /\ is_valid_char (char_of c) = true.

(** One record of the entry stream for an ASCII name and a header. *)
Definition encode_entry (entry : list Z * GPKEntryHeader) : list Z :=
  le16 (vsize (fst entry))
  ++ utf16le_encode (fst entry)
  ++ encode_header (snd entry).

(** The entry the reader is expected to produce for it. *)
Definition entry_of (entry : list Z * GPKEntryHeader) : GPKentry :=
  {| name := string_of_bytes (fst entry); header := snd entry |}.

(** An entry that can be written: a non-empty name of kept bytes, short
    enough for the 16-bit length prefix, and a header in range. *)
Definition writable_entry (entry : list Z * GPKEntryHeader) : Prop :=
  fst entry <> []
  /\ vsize (fst entry) < 2 ^ 16
  /\ Forall kept_byte (fst entry)
  /\ header_in_range (snd entry).

(** The entry stream: the records, then the zero length prefix that ends
    the enumeration. *)
Definition encode_index (entries : list (list Z * GPKEntryHeader))
  : list Z :=
  concat (encode_entry <$> entries) ++ [0; 0].

(** An entry named [a/b.bin] with a payload of 3 bytes at offset 0, and an
    archive written around an index that holds it. *)
Definition entry_ab : list Z * GPKEntryHeader :=
  ([97; 47; 98; 46; 98; 105; 110], header_at 0 3).

Definition archive_written : list Z :=
  make_archive [170; 187; 204] (encode_index [entry_ab]).

Definition fs_written : gmap string (list Z) :=
  {[ "packs/w.GPK"%string := archive_written ]}.

(** Four entries in range of the three-byte archive; the third needs the
    directory [out/x], where the second has written a file. *)
Definition gpk_blocked : GPK :=
  {| entries := [ {| name := "z"; header := header_at 0 1 |};
                  {| name := "x"; header := header_at 1 1 |};
                  {| name := "x/y"; header := header_at 1 1 |};
                  {| name := "z"; header := header_at 2 1 |} ];
     archive_name := "packs/s.GPK" |}.

(** The output paths of [FileSystem::unpack_all]: every path passed to
    [std::ofstream] is [root + getName() + PATH_SEPARATOR_STR + name] for
    a mounted archive and one of its entries. *)
Definition mounted_output (windows : bool) (this : FileSystem)
    (ev : fs_event) : Prop :=
  match ev with
  | Write_file p _ | Open_failed p =>
      exists gpk e,
        gpk ∈ gpks this /\ e ∈ entries gpk
        /\ p = String.append
                 (String.append (root this)
                    (String.append (getName gpk)
                       (PATH_SEPARATOR_STR windows)))
                 (name e)
  | _ => True
  end.

(* ===================================================================== *)
(** * Properties *)
(* ===================================================================== *)

(** ** Machine arithmetic *)

Lemma wrap_small w x : 0 <= x < 2 ^ w -> wrap w x = x.
Proof. intros H. unfold wrap. now apply Z.mod_small. Qed.

Lemma size_add_small a b : 0 <= a + b < 2 ^ 64 -> size_add a b = a + b.
Proof. intros H. unfold size_add, wrap64. now apply wrap_small. Qed.

Lemma vsize_nonneg {A} (v : list A) : 0 <= vsize v.
Proof. unfold vsize. lia. Qed.

Lemma lxor_byte a b : is_byte a -> is_byte b -> is_byte (Z.lxor a b).
Proof.
  unfold is_byte. intros [Ha Ha'] [Hb Hb'].
  assert (Hnn : 0 <= Z.lxor a b) by (apply Z.lxor_nonneg; tauto).
  split; [exact Hnn|].
  destruct (Z.eq_dec (Z.lxor a b) 0) as [->|Hz]; [lia|].
  apply (Z.log2_lt_pow2 _ 8); [lia|].
  eapply Z.le_lt_trans; [apply Z.log2_lxor; assumption|].
  apply Z.max_lub_lt.
  - destruct (Z.eq_dec a 0) as [->|]; [reflexivity|].
    apply Z.log2_lt_pow2; lia.
  - destruct (Z.eq_dec b 0) as [->|]; [reflexivity|].
    apply Z.log2_lt_pow2; lia.
Qed.

Lemma at_Forall (P : Z -> Prop) (v : list Z) (i : Z) :
  P 0 -> Forall P v -> P (at_ v i).
Proof.
  intros H0 Hv. unfold at_.
  destruct (v !! Z.to_nat i) as [x|] eqn:E; simpl; [|exact H0].
  eapply Forall_lookup_1; eassumption.
Qed.

(** ** The keystream *)

Lemma CIPHERCODE_bytes : Forall is_byte CIPHERCODE.
Proof. unfold CIPHERCODE, is_byte. repeat constructor; lia. Qed.

Lemma key_byte i : is_byte (at_ CIPHERCODE i).
Proof. apply at_Forall; [unfold is_byte; lia | apply CIPHERCODE_bytes]. Qed.

Lemma decrypt_from_involutive b : forall i,
  Forall is_byte b -> decrypt_from i (decrypt_from i b) = b.
Proof.
  induction b as [|x b IH]; intros i Hb; [reflexivity|].
  inversion Hb as [|? ? Hx Hb']; subst. simpl.
  rewrite IH by assumption. f_equal.
  pose proof (key_byte (i mod 16)) as Hk.
  pose proof (lxor_byte _ _ Hx Hk) as Hxk.
  unfold wrap8. rewrite (wrap_small 8 (Z.lxor x _)) by exact Hxk.
  rewrite Z.lxor_assoc, Z.lxor_nilpotent, Z.lxor_0_r.
  apply wrap_small. exact Hx.
Qed.

Lemma decrypt_from_lookup b : forall i (k : nat) x,
  Forall is_byte b -> b !! k = Some x ->
  decrypt_from i b !! k
  = Some (Z.lxor x (at_ CIPHERCODE ((i + Z.of_nat k) mod 16))).
Proof.
  induction b as [|y b IH]; intros i k x Hb Hk; [discriminate|].
  inversion Hb as [|? ? Hy Hb']; subst.
  destruct k as [|k].
  - simpl in *. injection Hk as ->. rewrite Z.add_0_r. f_equal.
    apply wrap_small, lxor_byte; [assumption | apply key_byte].
  - change (decrypt_from i (y :: b) !! S k)
      with (decrypt_from (i + 1) b !! k).
    rewrite (IH (i + 1) k x Hb' Hk).
    replace (i + Z.of_nat (S k)) with (i + 1 + Z.of_nat k) by lia.
    reflexivity.
Qed.

(** C7. The keystream XOR combines byte [i] with [CIPHERCODE[i mod 16]],
    and applying it twice to a byte sequence gives the sequence back. *)
Theorem decrypt_involutive (b : list Z) :
  Forall is_byte b ->
  decrypt (decrypt b) = b
  /\ forall (i : nat) x, b !! i = Some x ->
       decrypt b !! i = Some (Z.lxor x (at_ CIPHERCODE (Z.of_nat i mod 16))).
Proof.
  intros Hb. split.
  - apply decrypt_from_involutive, Hb.
  - intros i x Hi. unfold decrypt.
    rewrite (decrypt_from_lookup b 0 i x Hb Hi). reflexivity.
Qed.

Lemma decrypt_involutive_witness :
  Forall is_byte test_data /\ decrypt (decrypt test_data) = test_data.
Proof.
  assert (H : Forall is_byte test_data)
    by (unfold test_data, is_byte; repeat constructor; lia).
  split; [exact H | exact (proj1 (decrypt_involutive test_data H))].
Defined.

(** ** The size prefix and [decompress_data] *)

Lemma land_shifted_small a n y :
  0 <= n -> 0 <= y < 2 ^ n -> Z.land (a * 2 ^ n) y = 0.
Proof.
  intros Hn Hy. rewrite <- Z.shiftl_mul_pow2 by assumption.
  apply Z.bits_inj'. intros k Hk.
  rewrite Z.land_spec, Z.bits_0.
  destruct (Z.lt_ge_cases k n) as [Hlt|Hge].
  - rewrite Z.shiftl_spec_low by assumption. reflexivity.
  - replace (Z.testbit y k) with false; [apply andb_false_r|].
    symmetry. apply Z.testbit_false; [assumption|].
    rewrite Z.div_small; [reflexivity|].
    split; [lia|]. eapply Z.lt_le_trans; [apply Hy|].
    apply Z.pow_le_mono_r; lia.
Qed.

Lemma lor_shifted_small a n y :
  0 <= n -> 0 <= y < 2 ^ n -> Z.lor (a * 2 ^ n) y = a * 2 ^ n + y.
Proof.
  intros Hn Hy.
  pose proof (Z.add_lor_land (a * 2 ^ n) y) as H.
  rewrite land_shifted_small in H by assumption. lia.
Qed.

(** The size prefix is the big-endian value of the first four bytes. *)
Lemma declared_size_big_endian b0 b1 b2 b3 rest :
  is_byte b0 -> is_byte b1 -> is_byte b2 -> is_byte b3 ->
  declared_size (b0 :: b1 :: b2 :: b3 :: rest)
  = ((b0 * 256 + b1) * 256 + b2) * 256 + b3.
Proof.
  unfold is_byte, declared_size. intros H0 H1 H2 H3.
  change (at_ (b0 :: b1 :: b2 :: b3 :: rest) 0) with b0.
  change (at_ (b0 :: b1 :: b2 :: b3 :: rest) 1) with b1.
  change (at_ (b0 :: b1 :: b2 :: b3 :: rest) 2) with b2.
  change (at_ (b0 :: b1 :: b2 :: b3 :: rest) 3) with b3.
  rewrite !Z.shiftl_mul_pow2 by lia.
  rewrite (lor_shifted_small b0 24 (b1 * 2 ^ 16)) by lia.
  replace (b0 * 2 ^ 24 + b1 * 2 ^ 16) with ((b0 * 256 + b1) * 2 ^ 16) by lia.
  rewrite (lor_shifted_small _ 16 (b2 * 2 ^ 8)) by lia.
  replace ((b0 * 256 + b1) * 2 ^ 16 + b2 * 2 ^ 8)
    with (((b0 * 256 + b1) * 256 + b2) * 2 ^ 8) by lia.
  rewrite (lor_shifted_small _ 8 b3) by lia.
  apply wrap_small. lia.
Qed.

Lemma resize_store dest written :
  resize (store dest written) (vsize written) = written.
Proof.
  unfold resize, store, vsize. rewrite Nat2Z.id.
  rewrite take_app_length.
  replace (length written - _)%nat with 0%nat
    by (rewrite length_app; lia).
  apply app_nil_r.
Qed.

Section Decompress.

Variable uncompress : codec.

(** C2 (as the code has it). A blob shorter than the 4-byte size prefix is
    not an error: it is returned unchanged, and the codec is not called. *)
Theorem decompress_data_short (blob : list Z) :
  vsize blob < 4 -> decompress_data uncompress blob = inr blob.
Proof.
  intros H. unfold decompress_data.
  destruct (Z.ltb_spec (vsize blob) 4); [reflexivity | lia].
Qed.

(** C3 (as the code has it). For a blob of at least 4 bytes with a
    non-zero declared size whose payload the codec inflates with [Z_OK],
    the result is exactly the bytes the codec produced: at most the
    declared size of them, not necessarily as many. *)
Theorem decompress_data_returns_produced (blob written : list Z) :
  codec_respects_capacity uncompress ->
  4 <= vsize blob ->
  declared_size blob <> 0 ->
  uncompress (declared_size blob) (drop 4 blob) = (Z_OK, written) ->
  decompress_data uncompress blob = inr written
  /\ vsize written <= declared_size blob.
Proof.
  intros Hcap Hlen Hsize Hok. split.
  - unfold decompress_data.
    destruct (Z.ltb_spec (vsize blob) 4); [lia|].
    destruct (Z.eqb_spec (declared_size blob) 0); [contradiction|].
    rewrite Hok. simpl. f_equal. apply resize_store.
  - eapply Hcap. exact Hok.
Qed.

(** A declared size of zero is an error, whatever follows the prefix. *)
Lemma decompress_data_empty_size (blob : list Z) :
  4 <= vsize blob -> declared_size blob = 0 ->
  decompress_data uncompress blob = inl Invalid_uncompressed_size.
Proof.
  intros Hlen Hz. unfold decompress_data.
  destruct (Z.ltb_spec (vsize blob) 4); [lia|].
  rewrite Hz. reflexivity.
Qed.

(** A return code other than [Z_OK] is an error. *)
Lemma decompress_data_codec_error (blob written : list Z) (ret : Z) :
  4 <= vsize blob -> declared_size blob <> 0 -> ret <> Z_OK ->
  uncompress (declared_size blob) (drop 4 blob) = (ret, written) ->
  decompress_data uncompress blob = inl (Decompression_failed ret).
Proof.
  intros Hlen Hsize Hret Hc. unfold decompress_data.
  destruct (Z.ltb_spec (vsize blob) 4); [lia|].
  destruct (Z.eqb_spec (declared_size blob) 0); [contradiction|].
  rewrite Hc. destruct (Z.eqb_spec ret Z_OK); [contradiction|reflexivity].
Qed.

End Decompress.

(** ** The stored-block codec *)

Lemma inflate_stored_capacity fuel capacity : forall source out out' rest,
  StoredZlib.inflate_stored fuel capacity source out
    = StoredZlib.Stream_end out' rest ->
  vsize out' <= capacity.
Proof.
  induction fuel as [|fuel IH]; intros source out out' rest H;
    [discriminate|].
  simpl in H.
  destruct source as [|hdr [|l0 [|l1 [|n0 [|n1 body]]]]]; try discriminate.
  destruct (negb (Z.land (Z.shiftr hdr 1) 3 =? 0)); [discriminate|].
  destruct (negb (Z.lxor (l0 + 256 * l1) (n0 + 256 * n1) =? 65535));
    [discriminate|].
  destruct (vsize body <? l0 + 256 * l1); [discriminate|].
  destruct (Z.ltb_spec capacity
              (vsize (out ++ slice body 0 (l0 + 256 * l1))));
    [discriminate|].
  destruct (Z.land hdr 1 =? 1).
  - injection H as <- _. assumption.
  - eapply IH. exact H.
Qed.

Lemma stored_uncompress_respects_capacity :
  codec_respects_capacity StoredZlib.uncompress.
Proof.
  intros capacity source produced H.
  unfold StoredZlib.uncompress in H.
  destruct source as [|cmf [|flg deflate]]; try discriminate.
  destruct (_ && _); [|discriminate].
  destruct (StoredZlib.inflate_stored _ _ _ _) as [out rest|code] eqn:E.
  - destruct rest as [|a3 [|a2 [|a1 [|a0 rest]]]]; try discriminate.
    destruct (_ =? _); [|discriminate].
    injection H as <-. eapply inflate_stored_capacity. exact E.
  - destruct (Z.eqb_spec code Z_OK) as [->|]; [|congruence].
    injection H as <-. unfold vsize. simpl.
    (* a stream error never carries the code [Z_OK] *)
    exfalso. revert E. clear.
    generalize (@nil Z) as out. generalize (length deflate) as fuel.
    intros fuel. revert deflate.
    induction fuel as [|fuel IH]; intros source out H; [discriminate|].
    simpl in H.
    destruct source as [|hdr [|l0 [|l1 [|n0 [|n1 body]]]]];
      try discriminate.
    destruct (negb _); [discriminate|].
    destruct (negb _); [discriminate|].
    destruct (_ <? _); [discriminate|].
    destruct (_ <? _); [discriminate|].
    destruct (_ =? _); [discriminate|].
    eapply IH. exact H.
Qed.

Example stored_uncompress_abc :
  StoredZlib.uncompress 3 zlib_abc = (Z_OK, [97; 98; 99]).
Proof. reflexivity. Qed.

(** C2, counterexample: on a 3-byte blob [decompress_data] succeeds and
    returns the three bytes. *)
Lemma decompress_data_short_counterexample :
  vsize [1; 2; 3] < 4
  /\ decompress_data StoredZlib.uncompress [1; 2; 3] = inr [1; 2; 3].
Proof. split; reflexivity. Qed.

Lemma decompress_data_short_witness :
  vsize [1; 2; 3] < 4
  /\ decompress_data StoredZlib.uncompress [1; 2; 3] = inr [1; 2; 3].
Proof.
  split; [reflexivity|].
  apply (decompress_data_short StoredZlib.uncompress [1; 2; 3]).
  reflexivity.
Defined.

(** C3, counterexample: the prefix declares 5 bytes, the stream inflates
    to the 3 bytes [abc] without a codec error, and [decompress_data]
    returns those 3 bytes: a result shorter than the declared size, and no
    error. *)
Lemma decompress_data_size_mismatch_counterexample :
  4 <= vsize ([0; 0; 0; 5] ++ zlib_abc)
  /\ declared_size ([0; 0; 0; 5] ++ zlib_abc) = 5
  /\ StoredZlib.uncompress 5 zlib_abc = (Z_OK, [97; 98; 99])
  /\ decompress_data StoredZlib.uncompress ([0; 0; 0; 5] ++ zlib_abc)
     = inr [97; 98; 99]
  /\ vsize [97; 98; 99] <> 5.
Proof.
  split; [discriminate|].
  split; [reflexivity|].
  split; [reflexivity|].
  split; [reflexivity|discriminate].
Qed.

Lemma decompress_data_returns_produced_witness :
  decompress_data StoredZlib.uncompress ([0; 0; 0; 5] ++ zlib_abc)
    = inr [97; 98; 99]
  /\ vsize [97; 98; 99] <= declared_size ([0; 0; 0; 5] ++ zlib_abc).
Proof.
  apply (decompress_data_returns_produced StoredZlib.uncompress
           ([0; 0; 0; 5] ++ zlib_abc) [97; 98; 99]).
  - exact stored_uncompress_respects_capacity.
  - discriminate.
  - discriminate.
  - reflexivity.
Defined.

(** ** The parse loop *)

Lemma sizeof_uint16_t_eq : sizeof_uint16_t = 2.
Proof. reflexivity. Qed.

Lemma sizeof_GPKEntryHeader_eq : sizeof_GPKEntryHeader = 23.
Proof. reflexivity. Qed.

Lemma sizeof_GPKsig_eq : sizeof_GPKsig = 32.
Proof. reflexivity. Qed.

Lemma le_uint_bound bs :
  Forall is_byte bs -> 0 <= le_uint bs < 256 ^ Z.of_nat (length bs).
Proof.
  induction 1 as [|b bs Hb _ IH]; [simpl; lia|].
  change (le_uint (b :: bs)) with (b + 256 * le_uint bs).
  rewrite length_cons, Nat2Z.inj_succ, Z.pow_succ_r by lia.
  unfold is_byte in Hb. lia.
Qed.

Lemma slice_bytes (v : list Z) off len :
  Forall is_byte v -> Forall is_byte (slice v off len).
Proof. intros H. unfold slice. now apply Forall_take, Forall_drop. Qed.

Lemma slice_length_le {A} (v : list A) off len :
  0 <= len -> vsize (slice v off len) <= len.
Proof.
  intros H. unfold vsize, slice. rewrite length_take. lia.
Qed.

Section ParseLoop.

Variable uncompressedData : list Z.
Hypothesis data_bytes : Forall is_byte uncompressedData.
Hypothesis data_size : vsize uncompressedData <= vector_max_size.

Lemma filename_len_range pos :
  0 <= filename_len_at uncompressedData pos < 65536.
Proof.
  unfold filename_len_at.
  pose proof (le_uint_bound (slice uncompressedData pos sizeof_uint16_t)
                (slice_bytes _ _ _ data_bytes)) as [H0 H1].
  pose proof (slice_length_le uncompressedData pos sizeof_uint16_t) as Hl.
  rewrite sizeof_uint16_t_eq in *. unfold vsize in Hl.
  split; [exact H0|].
  eapply Z.lt_le_trans; [exact H1|].
  change 65536 with (256 ^ 2). apply Z.pow_le_mono_r; lia.
Qed.

(** What is known when the body reaches its end: the length prefix is not
    zero, the name fits in the buffer, and the cursor has moved over the
    prefix, the name and one header. *)
Lemma parse_body_continue pos entries pos' entries' :
  0 <= pos < vsize uncompressedData ->
  parse_body uncompressedData pos entries = Continue pos' entries' ->
  let n := filename_len_at uncompressedData pos in
  1 <= n
  /\ pos + sizeof_uint16_t + n * 2 <= vsize uncompressedData
  /\ pos' = pos + sizeof_uint16_t + n * 2 + sizeof_GPKEntryHeader
  /\ (entries' = entries
      \/ exists entry,
           entries' = entries ++ [entry]
           /\ name entry
              = clean_filename
                  (utf16le_to_utf8
                     (drop (Z.to_nat (pos + sizeof_uint16_t))
                        uncompressedData) n)
           /\ name entry <> EmptyString
           /\ pos' <= vsize uncompressedData).
Proof.
  intros Hpos H n.
  pose proof (filename_len_range pos) as Hn. fold n in Hn.
  unfold vector_max_size in data_size.
  unfold parse_body in H. fold n in H.
  rewrite sizeof_uint16_t_eq, sizeof_GPKEntryHeader_eq in *.
  rewrite (size_add_small pos 2) in H by lia.
  destruct (Z.gtb_spec (pos + 2) (vsize uncompressedData));
    [discriminate|].
  destruct (Z.eqb_spec n 0); [discriminate|].
  rewrite (size_add_small (pos + 2) (n * 2)) in H by lia.
  destruct (Z.gtb_spec (pos + 2 + n * 2) (vsize uncompressedData));
    [discriminate|].
  rewrite (size_add_small (pos + 2 + n * 2) 23) in H by lia.
  split; [lia|]. split; [lia|].
  destruct (String.eqb_spec
              (clean_filename
                 (utf16le_to_utf8
                    (drop (Z.to_nat (pos + 2)) uncompressedData) n))
              EmptyString) as [Hempty|Hne].
  - injection H as <- <-. split; [reflexivity | left; reflexivity].
  - destruct (Z.gtb_spec (pos + 2 + n * 2 + 23) (vsize uncompressedData));
      [discriminate|].
    injection H as <- <-. split; [reflexivity|].
    right. eexists. split; [reflexivity|]. simpl.
    split; [reflexivity|]. split; [exact Hne | lia].
Qed.

(** Each execution of the body that does not leave the loop moves the
    cursor forward, by at least the prefix and one code unit. *)
Lemma parse_body_advances pos entries pos' entries' :
  0 <= pos < vsize uncompressedData ->
  parse_body uncompressedData pos entries = Continue pos' entries' ->
  pos + 2 <= pos'.
Proof.
  intros Hpos H.
  destruct (parse_body_continue _ _ _ _ Hpos H) as (Hn & _ & -> & _).
  rewrite sizeof_uint16_t_eq, sizeof_GPKEntryHeader_eq. lia.
Qed.

Lemma parse_loop_enough_fuel fuel : forall pos entries,
  0 <= pos ->
  vsize uncompressedData - pos <= Z.of_nat fuel ->
  exists result,
    parse_loop fuel uncompressedData pos entries = Some result.
Proof.
  induction fuel as [|fuel IH]; intros pos entries Hpos Hfuel.
  - simpl. destruct (Z.ltb_spec pos (vsize uncompressedData)); [lia|].
    eexists; reflexivity.
  - simpl. destruct (Z.ltb_spec pos (vsize uncompressedData));
      [|eexists; reflexivity].
    destruct (parse_body uncompressedData pos entries)
      as [|pos' entries'] eqn:E; [eexists; reflexivity|].
    pose proof (parse_body_advances pos entries pos' entries'
                  (conj Hpos H) E).
    apply IH; lia.
Qed.

(** Fuel beyond what the loop uses does not change the result. *)
Lemma parse_loop_fuel_mono fuel : forall fuel' pos entries result,
  (fuel <= fuel')%nat ->
  parse_loop fuel uncompressedData pos entries = Some result ->
  parse_loop fuel' uncompressedData pos entries = Some result.
Proof.
  induction fuel as [|fuel IH]; intros fuel' pos entries result Hle H.
  - simpl in H.
    destruct (pos <? vsize uncompressedData) eqn:E; [discriminate|].
    destruct fuel'; simpl; rewrite E; exact H.
  - destruct fuel' as [|fuel']; [lia|]. simpl in *.
    destruct (pos <? vsize uncompressedData); [|exact H].
    destruct (parse_body uncompressedData pos entries); [exact H|].
    apply IH; [lia | exact H].
Qed.

(** C9. The parse loop terminates: an execution of the body either leaves
    the loop or moves the cursor forward by at least 2 bytes, and the loop
    finishes within as many executions of the body as the buffer has
    bytes (more fuel gives the same entries). *)
Theorem parse_loop_terminates (entries : list GPKentry) :
  (forall pos es pos' es',
     0 <= pos < vsize uncompressedData ->
     parse_body uncompressedData pos es = Continue pos' es' ->
     pos + 2 <= pos')
  /\ exists result,
       forall fuel, (length uncompressedData <= fuel)%nat ->
         parse_loop fuel uncompressedData 0 entries = Some result.
Proof.
  split; [exact parse_body_advances|].
  destruct (parse_loop_enough_fuel (length uncompressedData) 0 entries)
    as [result Hr]; [lia | unfold vsize; lia |].
  exists result. intros fuel Hfuel.
  eapply parse_loop_fuel_mono; eassumption.
Qed.

(** C1 (as the code has it). The packed entry header takes 23 bytes, and
    an execution of the body that consumes a header, whether the entry is
    stored or skipped for its empty name, leaves the cursor exactly that
    many bytes after the name. *)
Theorem parse_body_header_size pos entries pos' entries' :
  0 <= pos < vsize uncompressedData ->
  parse_body uncompressedData pos entries = Continue pos' entries' ->
  sizeof_GPKEntryHeader = 2 + 2 + 2 + 4 + 4 + 4 + 4 + 1
  /\ pos'
     = (pos + sizeof_uint16_t + filename_len_at uncompressedData pos * 2)
       + sizeof_GPKEntryHeader.
Proof.
  intros Hpos H. split; [reflexivity|].
  destruct (parse_body_continue _ _ _ _ Hpos H) as (_ & _ & -> & _).
  reflexivity.
Qed.

End ParseLoop.

(** C1, counterexample: the packed header is not 21 bytes long, and after
    the skipped record named [?] at cursor 0 the cursor is 27, which is 23
    bytes, not 21, past the 4 bytes of prefix and name. *)
Lemma entry_header_size_counterexample :
  sizeof_GPKEntryHeader <> 21
  /\ parse_body record_question_mark 0 [] = Continue 27 []
  /\ filename_len_at record_question_mark 0 = 1
  /\ 27 <> (0 + sizeof_uint16_t + 1 * 2) + 21.
Proof.
  split; [discriminate|]. split; [reflexivity|].
  split; [reflexivity|discriminate].
Qed.

Lemma record_question_mark_bytes : Forall is_byte record_question_mark.
Proof. unfold is_byte. vm_compute. repeat constructor; discriminate. Qed.

Lemma parse_body_header_size_witness :
  sizeof_GPKEntryHeader = 2 + 2 + 2 + 4 + 4 + 4 + 4 + 1
  /\ 27
     = (0 + sizeof_uint16_t + filename_len_at record_question_mark 0 * 2)
       + sizeof_GPKEntryHeader.
Proof.
  apply (parse_body_header_size record_question_mark
           record_question_mark_bytes ltac:(discriminate) 0 [] 27 []).
  - split; [discriminate|reflexivity].
  - reflexivity.
Defined.

Lemma parse_loop_terminates_witness :
  (forall pos es pos' es',
     0 <= pos < vsize record_question_mark ->
     parse_body record_question_mark pos es = Continue pos' es' ->
     pos + 2 <= pos')
  /\ exists result,
       forall fuel, (length record_question_mark <= fuel)%nat ->
         parse_loop fuel record_question_mark 0 [] = Some result.
Proof.
  apply (parse_loop_terminates record_question_mark
           record_question_mark_bytes ltac:(discriminate) []).
Defined.

(** ** Name sanitization *)

Lemma separator_is_valid c : is_separator c = true -> is_valid_char c = true.
Proof.
  unfold is_separator, is_valid_char.
  destruct (Z.eqb_spec (byte_of c) 92) as [->|_]; [reflexivity|].
  destruct (Z.eqb_spec (byte_of c) 47) as [->|_]; [reflexivity|].
  discriminate.
Qed.

Lemma is_valid_char_spec c :
  is_valid_char c = is_printable c && negb (is_hostile c).
Proof.
  unfold is_valid_char, is_printable, is_hostile.
  destruct ((32 <=? byte_of c) && (byte_of c <=? 126)); [|reflexivity].
  rewrite !andb_true_l.
  case_bool_decide as H.
  - repeat (apply elem_of_cons in H as [->|H]; [reflexivity|]).
    apply elem_of_nil in H. contradiction.
  - repeat match goal with
      | |- context [?x =? ?n] =>
          destruct (Z.eqb_spec x n) as [E|_];
          [exfalso; apply H; rewrite E; set_solver|]
      end.
    reflexivity.
Qed.

(** The second branch of the clean-up loop is never taken: the loop is a
    filter by its first test. *)
Lemma clean_chars_filter filename :
  clean_chars filename = string_filter is_valid_char filename.
Proof.
  induction filename as [|c rest IH]; [reflexivity|]. simpl.
  destruct (is_valid_char c) eqn:Ev; [now rewrite IH|].
  destruct (is_separator c) eqn:Es; [|exact IH].
  apply separator_is_valid in Es. congruence.
Qed.

Lemma string_filter_ext (p q : ascii -> bool) s :
  (forall c, p c = q c) -> string_filter p s = string_filter q s.
Proof.
  intros H. induction s as [|c rest IH]; [reflexivity|].
  simpl. rewrite H, IH. reflexivity.
Qed.

Lemma string_filter_valid (p : ascii -> bool) s :
  Forall (fun c => p c = true) (list_ascii_of_string (string_filter p s)).
Proof.
  induction s as [|c rest IH]; [constructor|]. simpl.
  destruct (p c) eqn:E; [constructor; assumption | exact IH].
Qed.

(** C6 (as the code has it). The decoded name is cut at its first NUL;
    of what remains, exactly the printable ASCII characters other than
    the seven hostile ones are kept, in order, and a slash stays a slash.
    Every other byte is dropped: control characters, DEL, and the bytes of
    non-ASCII characters.  (Names with a backslash are left out of this
    statement.) *)
Theorem clean_filename_keeps_printable (filename : string) :
  ~ In backslash (list_ascii_of_string filename) ->
  clean_filename filename
  = string_filter (fun c => is_printable c && negb (is_hostile c))
      (erase_from_nul filename)
  /\ clean_filename "/" = "/"%string.
Proof.
  intros _. split; [|reflexivity].
  unfold clean_filename. rewrite clean_chars_filter.
  apply string_filter_ext, is_valid_char_spec.
Qed.

Lemma clean_filename_valid filename :
  Forall (fun c => is_printable c = true /\ is_hostile c = false)
    (list_ascii_of_string (clean_filename filename)).
Proof.
  unfold clean_filename. rewrite clean_chars_filter.
  eapply Forall_impl; [apply string_filter_valid|].
  intros c Hc. simpl in Hc. rewrite is_valid_char_spec in Hc.
  apply andb_true_iff in Hc as [Hp Hh].
  split; [exact Hp | now apply negb_true_iff].
Qed.

(** The entry list after an execution of the body: unchanged, or one
    entry longer, with a non-empty cleaned name. *)
Lemma parse_body_entries uncompressedData pos entries pos' entries' :
  parse_body uncompressedData pos entries = Continue pos' entries' ->
  entries' = entries
  \/ exists filename hdr,
       clean_filename filename <> EmptyString
       /\ entries'
          = entries ++ [ {| name := clean_filename filename;
                            header := hdr |} ].
Proof.
  unfold parse_body. intros H.
  destruct (_ >? _); [discriminate|].
  destruct (_ =? 0); [discriminate|].
  destruct (_ >? _); [discriminate|].
  match type of H with
  | context [String.eqb ?n EmptyString] =>
      destruct (String.eqb_spec n EmptyString) as [E|E]
  end.
  - injection H as _ <-. left; reflexivity.
  - destruct (_ >? _); [discriminate|].
    injection H as _ <-. right. eauto.
Qed.

(** The parse loop keeps the names of the index clean in the sense of
    [name_is_clean]; a backslash is a printable character that is not
    hostile, so this says nothing against backslashes. *)
Lemma parse_loop_names_clean uncompressedData fuel :
  forall pos entries result,
    Forall (fun e => name_is_clean (name e)) entries ->
    parse_loop fuel uncompressedData pos entries = Some result ->
    Forall (fun e => name_is_clean (name e)) result.
Proof.
  induction fuel as [|fuel IH]; intros pos entries result Hes H; simpl in H.
  - destruct (_ <? _); [discriminate|]. now injection H as <-.
  - destruct (_ <? _); [|now injection H as <-].
    destruct (parse_body uncompressedData pos entries)
      as [|pos' entries'] eqn:E; [now injection H as <-|].
    apply (IH pos' entries' result); [|exact H].
    destruct (parse_body_entries _ _ _ _ _ E)
      as [->|(filename & hdr & Hne & ->)]; [exact Hes|].
    apply Forall_app. split; [exact Hes|].
    constructor; [|constructor]. simpl.
    split; [exact Hne | apply clean_filename_valid].
Qed.

(** C8, the code at a failing input: loading the archive whose single
    entry is named [a], backslash, [b] succeeds and stores that entry
    with the backslash still in its name. *)
Theorem load_stores_backslash :
  load StoredZlib.uncompress fs_backslash (mkGPK [] EmptyString)
    "packs/a.GPK"
  = Some (true,
          {| entries :=
               [ {| name := name_backslash;
                    header := GPKEntryHeader_of_bytes header_bytes |} ];
             archive_name := "packs/a.GPK" |})
  /\ In backslash (list_ascii_of_string name_backslash)
  /\ clean_filename name_backslash = name_backslash
  /\ sanitize_spec name_backslash = "a/b"%string.
Proof.
  split; [vm_compute; reflexivity|].
  split; [right; left; reflexivity|].
  split; reflexivity.
Qed.

(** C6, counterexample: the decoded name of U+00E9 is two bytes that are
    neither control nor hostile characters; the specification's words keep
    them, the code drops both and leaves an empty name. *)
Lemma clean_filename_counterexample :
  utf16le_to_utf8 [233; 0] 1 = string_of_bytes [195; 169]
  /\ sanitize_spec (utf16le_to_utf8 [233; 0] 1) = string_of_bytes [195; 169]
  /\ clean_filename (utf16le_to_utf8 [233; 0] 1) = EmptyString.
Proof. repeat split. Qed.

Lemma clean_filename_keeps_printable_witness :
  clean_filename "dir/a?b.bin"
  = string_filter (fun c => is_printable c && negb (is_hostile c))
      (erase_from_nul "dir/a?b.bin")
  /\ clean_filename "/" = "/"%string.
Proof.
  apply (clean_filename_keeps_printable "dir/a?b.bin").
  simpl. unfold backslash. intros H.
  repeat (destruct H as [H|H]; [discriminate H|]). exact H.
Defined.

(** ** [GPK::load] *)

Section Load.

Variable uncompress : codec.
Variable fs : gmap string (list Z).

(** C10. [load] stores the path in the handle before it validates
    anything: after a load that returns false (the file does not open or
    its trailer is not accepted, or decompression throws) the handle
    carries the given path, [getName] is computed from it, and the entry
    list is the one from before the call. *)
Theorem load_failure_not_atomic (this this' : GPK) (file_name : string) :
  load uncompress fs this file_name = Some (false, this') ->
  archive_name this' = file_name
  /\ getName this' = display_name file_name
  /\ entries this' = entries this
  /\ (read_signature fs file_name = None
      \/ exists package fileSize sign err,
           read_signature fs file_name = Some (package, fileSize, sign)
           /\ decompress_data uncompress
                (decrypt (fst (read_index package fileSize sign)))
              = inl err).
Proof.
  unfold load. intros H.
  destruct (read_signature fs file_name) as [[[package fileSize] sign]|].
  - unfold load_index in H.
    destruct (decompress_data uncompress _) as [err|data] eqn:E.
    + injection H as <-. repeat split. right. eauto 6.
    + destruct (parse_loop _ _ _ _); discriminate.
  - injection H as <-. repeat split. left. reflexivity.
Qed.

(** A file that does not open makes [load] return false. *)
Lemma load_unopenable (this : GPK) (file_name : string) :
  fs !! file_name = None ->
  load uncompress fs this file_name
  = Some (false, {| entries := entries this; archive_name := file_name |}).
Proof.
  intros H. unfold load, read_signature, ifstream_open.
  rewrite H. reflexivity.
Qed.

End Load.

Lemma load_failure_not_atomic_witness :
  archive_name (mkGPK [] "missing.GPK") = "missing.GPK"%string
  /\ getName (mkGPK [] "missing.GPK") = display_name "missing.GPK"
  /\ entries (mkGPK [] "missing.GPK") = entries (mkGPK [] "old.GPK")
  /\ (read_signature ∅ "missing.GPK" = None
      \/ exists package fileSize sign err,
           read_signature ∅ "missing.GPK"
             = Some (package, fileSize, sign)
           /\ decompress_data StoredZlib.uncompress
                (decrypt (fst (read_index package fileSize sign)))
              = inl err).
Proof.
  apply (load_failure_not_atomic StoredZlib.uncompress ∅
           (mkGPK [] "old.GPK") (mkGPK [] "missing.GPK") "missing.GPK").
  reflexivity.
Defined.

(** ** The trailer and the index blob *)

Lemma to_int64_size_sub a b :
  - 2 ^ 63 <= a - b < 2 ^ 63 -> to_int64 (size_sub a b) = a - b.
Proof.
  intros H. unfold to_int64, size_sub, wrap64, wrap.
  destruct (Z.neg_nonneg_cases (a - b)) as [Hneg|Hpos].
  - rewrite <- (Z.mod_add (a - b) 1 (2 ^ 64)) by lia.
    rewrite Z.mod_small by lia.
    destruct (Z.ltb_spec (a - b + 1 * 2 ^ 64) (2 ^ 63)); lia.
  - rewrite Z.mod_small by lia.
    destruct (Z.ltb_spec (a - b) (2 ^ 63)); lia.
Qed.

Lemma size_sub_small a b : 0 <= a - b < 2 ^ 64 -> size_sub a b = a - b.
Proof. intros H. unfold size_sub, wrap64. now apply wrap_small. Qed.

Lemma slice_length {A} (v : list A) off len :
  0 <= off -> 0 <= len -> off + len <= vsize v ->
  length (slice v off len) = Z.to_nat len.
Proof.
  unfold vsize, slice. intros Ho Hl H.
  rewrite length_take, length_drop. lia.
Qed.

Lemma store_full dest written :
  (length dest <= length written)%nat -> store dest written = written.
Proof.
  intros H. unfold store. rewrite drop_ge by exact H. apply app_nil_r.
Qed.

(** Reading [n] bytes that the file has, from a stream in good state:
    they are exactly the bytes at the get position, and the stream stays
    good. *)
Lemma read_in_range content pos g n :
  0 <= pos -> 0 <= n -> pos + n <= vsize content ->
  read (mkifstream content pos false false g) (replicate (Z.to_nat n) 0) n
  = (slice content pos n, mkifstream content (pos + n) false false n).
Proof.
  intros Hp Hn H. unfold read, good. simpl.
  pose proof (slice_length content pos n Hp Hn H) as Hl.
  assert (Hv : vsize (slice content pos n) = n)
    by (unfold vsize; rewrite Hl; apply Z2Nat.id, Hn).
  rewrite Hv, Z.ltb_irrefl.
  rewrite store_full by (rewrite length_replicate, Hl; lia).
  reflexivity.
Qed.

(** A read on a stream that has failed stores nothing. *)
Lemma read_failed content pos e g buffer n :
  read (mkifstream content pos true e g) buffer n
  = (buffer, mkifstream content pos true e 0).
Proof. reflexivity. Qed.

Lemma pidx_length_range raw :
  Forall is_byte raw ->
  0 <= pidx_length (GPKsig_of_bytes raw) < 2 ^ 32.
Proof.
  intros H.
  change (pidx_length (GPKsig_of_bytes raw)) with (le_uint (slice raw 12 4)).
  pose proof (le_uint_bound (slice raw 12 4) (slice_bytes _ _ _ H))
    as [H0 H1].
  pose proof (slice_length_le raw 12 4) as Hl. unfold vsize in Hl.
  split; [exact H0|].
  eapply Z.lt_le_trans; [exact H1|].
  change (2 ^ 32) with (256 ^ 4). apply Z.pow_le_mono_r; lia.
Qed.

Section Trailer.

Variable uncompress : codec.
Variable fs : gmap string (list Z).
Variable file_name : string.
Variable content : list Z.
Hypothesis file_content : fs !! file_name = Some content.
Hypothesis content_bytes : Forall is_byte content.
Hypothesis content_size : vsize content <= vector_max_size.

(** What an accepted trailer tells: the file has at least the 32 bytes of
    the trailer, which were read from its end, and the stream is in good
    state at the end of the file. *)
Lemma read_signature_accepted package fileSize sign :
  read_signature fs file_name = Some (package, fileSize, sign) ->
  fileSize = vsize content
  /\ sizeof_GPKsig <= fileSize
  /\ package = mkifstream content fileSize false false sizeof_GPKsig
  /\ sign
     = GPKsig_of_bytes
         (slice content (fileSize - sizeof_GPKsig) sizeof_GPKsig).
Proof.
  unfold read_signature, ifstream_open. rewrite file_content.
  unfold vector_max_size in content_size.
  pose proof (vsize_nonneg content) as Hnn.
  simpl fmap. cbv beta iota.
  change (seekg_end (mkifstream content 0 false false 0))
    with (mkifstream content (vsize content) false false 0).
  change (tellg (mkifstream content (vsize content) false false 0))
    with (vsize content).
  rewrite sizeof_GPKsig_eq.
  rewrite to_int64_size_sub by lia.
  destruct (Z.lt_ge_cases (vsize content) 32) as [Hshort|Hlong].
  - (* the first seek fails, nothing is read *)
    unfold seekg. simpl failbit. cbv iota.
    destruct (Z.ltb_spec (vsize content - 32) 0); [|lia].
    rewrite read_failed. simpl. discriminate.
  - unfold seekg. simpl failbit. cbv iota.
    destruct (Z.ltb_spec (vsize content - 32) 0); [lia|].
    simpl file. simpl last_gcount.
    rewrite (read_in_range content (vsize content - 32) 0 32) by lia.
    replace (vsize content - 32 + 32) with (vsize content) by lia.
    intros Hres.
    destruct (_ || _) in Hres; [discriminate|].
    injection Hres as <- <- <-.
    repeat split. lia.
Qed.

(** C4 (as the code has it). Once both signatures are accepted, the
    position of the index blob is [fileSize - sizeof(GPKsig) -
    pidx_length]; when it is not negative the blob is read from there;
    when it is negative nothing checks it: the seek fails, the read
    stores nothing, and [load] goes on to decrypt and decompress a
    zero-filled buffer of [pidx_length] bytes. *)
Theorem load_index_range_unchecked (this : GPK) package fileSize sign :
  read_signature fs file_name = Some (package, fileSize, sign) ->
  fileSize = vsize content
  /\ index_offset fileSize (pidx_length sign)
     = fileSize - sizeof_GPKsig - pidx_length sign
  /\ (0 <= index_offset fileSize (pidx_length sign) ->
      fst (read_index package fileSize sign)
      = slice content (fileSize - sizeof_GPKsig - pidx_length sign)
          (pidx_length sign))
  /\ (index_offset fileSize (pidx_length sign) < 0 ->
      fst (read_index package fileSize sign)
      = replicate (Z.to_nat (pidx_length sign)) 0
      /\ load uncompress fs this file_name
         = load_index uncompress
             {| entries := entries this; archive_name := file_name |}
             (replicate (Z.to_nat (pidx_length sign)) 0)).
Proof.
  intros Hsig.
  destruct (read_signature_accepted _ _ _ Hsig) as (Hsize & Hmin & Hp & Hs).
  assert (Hpidx : 0 <= pidx_length sign < 2 ^ 32)
    by (rewrite Hs; apply pidx_length_range, slice_bytes, content_bytes).
  unfold vector_max_size in content_size.
  rewrite sizeof_GPKsig_eq in *.
  assert (Hoff : index_offset fileSize (pidx_length sign)
                 = fileSize - 32 - pidx_length sign).
  { unfold index_offset. rewrite sizeof_GPKsig_eq.
    rewrite (size_sub_small fileSize 32) by lia.
    apply to_int64_size_sub. lia. }
  split; [exact Hsize|]. split; [exact Hoff|].
  rewrite Hoff. unfold read_index. rewrite Hoff, Hp. unfold seekg.
  simpl failbit. cbv iota. split.
  - intros Hge. destruct (Z.ltb_spec (fileSize - 32 - pidx_length sign) 0);
      [lia|].
    simpl file. simpl last_gcount.
    rewrite read_in_range by lia. reflexivity.
  - intros Hlt. destruct (Z.ltb_spec (fileSize - 32 - pidx_length sign) 0);
      [|lia].
    simpl file. simpl gpos. simpl last_gcount.
    rewrite read_failed. split; [reflexivity|].
    unfold load. rewrite Hsig. unfold read_index.
    rewrite Hoff, Hp. unfold seekg. simpl failbit. cbv iota.
    destruct (Z.ltb_spec (fileSize - 32 - pidx_length sign) 0); [|lia].
    reflexivity.
Qed.

End Trailer.

(** C4, counterexample: a file that is only a valid trailer declaring an
    index blob of one byte.  The blob would start at offset -1; [load]
    does not fail, it returns true (with no entries). *)
Lemma load_index_range_counterexample :
  vsize archive_only_trailer = 32
  /\ read_signature fs_only_trailer "packs/t.GPK"
     = Some (mkifstream archive_only_trailer 32 false false 32, 32,
             GPKsig_of_bytes archive_only_trailer)
  /\ pidx_length (GPKsig_of_bytes archive_only_trailer) = 1
  /\ index_offset 32 1 = -1
  /\ load StoredZlib.uncompress fs_only_trailer (mkGPK [] EmptyString)
       "packs/t.GPK"
     = Some (true, {| entries := []; archive_name := "packs/t.GPK" |}).
Proof.
  split; [reflexivity|].
  split; [vm_compute; reflexivity|].
  split; [reflexivity|].
  split; [reflexivity|].
  vm_compute; reflexivity.
Qed.

Lemma archive_only_trailer_bytes : Forall is_byte archive_only_trailer.
Proof. unfold is_byte. vm_compute. repeat constructor; discriminate. Qed.

Lemma load_index_range_unchecked_witness :
  32 = vsize archive_only_trailer
  /\ index_offset 32 (pidx_length (GPKsig_of_bytes archive_only_trailer))
     = 32 - sizeof_GPKsig
       - pidx_length (GPKsig_of_bytes archive_only_trailer)
  /\ (0 <= index_offset 32
             (pidx_length (GPKsig_of_bytes archive_only_trailer)) ->
      fst (read_index (mkifstream archive_only_trailer 32 false false 32)
             32 (GPKsig_of_bytes archive_only_trailer))
      = slice archive_only_trailer
          (32 - sizeof_GPKsig
           - pidx_length (GPKsig_of_bytes archive_only_trailer))
          (pidx_length (GPKsig_of_bytes archive_only_trailer)))
  /\ (index_offset 32
        (pidx_length (GPKsig_of_bytes archive_only_trailer)) < 0 ->
      fst (read_index (mkifstream archive_only_trailer 32 false false 32)
             32 (GPKsig_of_bytes archive_only_trailer))
      = replicate
          (Z.to_nat (pidx_length (GPKsig_of_bytes archive_only_trailer))) 0
      /\ load StoredZlib.uncompress fs_only_trailer (mkGPK [] EmptyString)
           "packs/t.GPK"
         = load_index StoredZlib.uncompress
             {| entries := entries (mkGPK [] EmptyString);
                archive_name := "packs/t.GPK" |}
             (replicate
                (Z.to_nat
                   (pidx_length (GPKsig_of_bytes archive_only_trailer)))
                0)).
Proof.
  apply (load_index_range_unchecked StoredZlib.uncompress fs_only_trailer
           "packs/t.GPK" archive_only_trailer).
  - reflexivity.
  - exact archive_only_trailer_bytes.
  - discriminate.
  - vm_compute; reflexivity.
Defined.

(** ** [GPK::unpack_all] *)





Section Extraction.

Variable env : environment.
Variable parent_path : string -> string.
Variables archive dir : string.
Variable bytes : list Z.

(** The directory step of the loop body only adds calls. *)
Lemma directory_step_extends (h h1 : list fs_event) (dirPath : string) :
  (if String.eqb dirPath EmptyString then Some h
   else create_directories env h dirPath) = Some h1 ->
  h1 = h \/ h1 = h ++ [Create_directories dirPath].
Proof.
  destruct (String.eqb dirPath EmptyString); [intros [= <-]; now left|].
  unfold create_directories.
  destruct (create_directories_ok env h dirPath); [|discriminate].
  intros [= <-]. now right.
Qed.






End Extraction.




(** The calls of an extraction whose entries are all in range. *)
Example unpack_all_in_range_calls :
  unpack_all (quiet_env fs_three_bytes (fun _ => true)) parent_of
    gpk_in_range "out/" []
  = (Returned,
     [ Create_directories "out/";
       Create_directories "out"; Write_file "out/y" [1; 2];
       Create_directories "out"; Write_file "out/x" [2; 3] ]).
Proof. vm_compute. reflexivity. Qed.

(** An exception from [create_directories] ends the extraction: where a
    file [out/x] has been written the directory [out/x] cannot be
    created, so the entry [x/y] throws and the last entry, a second [z],
    is never reached; [out/z] keeps the byte of the first. *)
Example unpack_all_directory_exception :
  unpack_all (file_blocks_env fs_three_bytes) parent_of gpk_blocked
    "out/" []
  = (Threw,
     [ Create_directories "out/";
       Create_directories "out"; Write_file "out/z" [1];
       Create_directories "out"; Write_file "out/x" [2];
       Create_directories_threw "out/x" ]).
Proof. vm_compute. reflexivity. Qed.

(* ===================================================================== *)
(** * Further properties of the reader *)
(* ===================================================================== *)

(** ** Errors of [decompress_data] *)

Lemma decompress_data_empty_size_witness :
  decompress_data StoredZlib.uncompress ([0; 0; 0; 0] ++ zlib_abc)
  = inl Invalid_uncompressed_size.
Proof.
  apply (decompress_data_empty_size StoredZlib.uncompress
           ([0; 0; 0; 0] ++ zlib_abc)).
  - discriminate.
  - reflexivity.
Defined.

Lemma decompress_data_codec_error_witness :
  decompress_data StoredZlib.uncompress ([0; 0; 0; 2] ++ zlib_abc)
  = inl (Decompression_failed Z_BUF_ERROR).
Proof.
  apply (decompress_data_codec_error StoredZlib.uncompress
           ([0; 0; 0; 2] ++ zlib_abc) [] Z_BUF_ERROR).
  - discriminate.
  - discriminate.
  - discriminate.
  - reflexivity.
Defined.

Lemma declared_size_big_endian_witness :
  declared_size (1 :: 2 :: 3 :: 4 :: zlib_abc)
  = ((1 * 256 + 2) * 256 + 3) * 256 + 4.
Proof.
  apply (declared_size_big_endian 1 2 3 4 zlib_abc);
    unfold is_byte; lia.
Defined.

(** ** Shape of the keystream output *)

Lemma wrap8_byte x : is_byte (wrap8 x).
Proof. unfold is_byte, wrap8, wrap. apply Z.mod_pos_bound. lia. Qed.

Lemma decrypt_from_shape data : forall i,
  length (decrypt_from i data) = length data
  /\ Forall is_byte (decrypt_from i data).
Proof.
  induction data as [|b rest IH]; intros i; [split; constructor|].
  destruct (IH (i + 1)) as [Hl Hb]. simpl. split.
  - now rewrite Hl.
  - constructor; [apply wrap8_byte | exact Hb].
Qed.

(** The keystream keeps the length of the blob, and whatever it is given
    it leaves bytes. *)
Theorem decrypt_shape (data : list Z) :
  length (decrypt data) = length data /\ Forall is_byte (decrypt data).
Proof. apply decrypt_from_shape. Qed.

(** ** Soft stops of the parse loop *)

(** A stream that starts with a zero length prefix, or is too short to
    hold a prefix, adds nothing to the index and is not an error. *)
Theorem parse_loop_sentinel (fuel : nat) (uncompressedData : list Z)
    (entries : list GPKentry) :
  vsize uncompressedData < 2 \/ filename_len_at uncompressedData 0 = 0 ->
  parse_loop (S fuel) uncompressedData 0 entries = Some entries.
Proof.
  intros H. simpl.
  destruct (0 <? vsize uncompressedData); [|reflexivity].
  unfold parse_body.
  change (size_add 0 sizeof_uint16_t) with 2.
  destruct (Z.gtb_spec 2 (vsize uncompressedData)); [reflexivity|].
  destruct H as [H|H]; [lia|]. rewrite H. reflexivity.
Qed.

Lemma parse_loop_sentinel_witness :
  parse_loop 1 [0; 0; 7; 7; 7] 0 [] = Some [].
Proof.
  apply (parse_loop_sentinel 0 [0; 0; 7; 7; 7] []).
  right. reflexivity.
Defined.

Lemma parse_loop_names_clean_witness :
  Forall (fun e => name_is_clean (name e))
    [ {| name := name_backslash;
         header := GPKEntryHeader_of_bytes header_bytes |} ].
Proof.
  apply (parse_loop_names_clean record_backslash 31 0 []).
  - constructor.
  - reflexivity.
Defined.

(** The parse loop only appends: the entries it was given stay at the
    front, in order, and the entries added have clean names. *)
Lemma parse_loop_appends uncompressedData fuel : forall pos entries result,
  parse_loop fuel uncompressedData pos entries = Some result ->
  exists new,
    result = entries ++ new
    /\ Forall (fun e => name_is_clean (name e)) new.
Proof.
  assert (Hnil : forall es : list GPKentry,
            exists new, es = es ++ new
                        /\ Forall (fun e => name_is_clean (name e)) new)
    by (intros es; exists []; split; [now rewrite app_nil_r|constructor]).
  induction fuel as [|fuel IH]; intros pos entries result H; simpl in H.
  - destruct (_ <? _); [discriminate|]. injection H as <-. apply Hnil.
  - destruct (_ <? _); [|injection H as <-; apply Hnil].
    destruct (parse_body uncompressedData pos entries)
      as [|pos' entries'] eqn:E; [injection H as <-; apply Hnil|].
    destruct (IH _ _ _ H) as (new & -> & Hclean).
    destruct (parse_body_entries _ _ _ _ _ E)
      as [->|(filename & hdr & Hne & ->)]; [eauto|].
    rewrite <- app_assoc. eexists. split; [reflexivity|].
    constructor; [|exact Hclean]. simpl.
    split; [exact Hne | apply clean_filename_valid].
Qed.

(** A successful [load] records the path and appends to the entries the
    handle already has: it never clears or reorders them, so loading into
    a handle twice accumulates entries.  The entries added have non-empty
    names of printable ASCII characters other than the seven hostile
    ones. *)
Theorem load_success_appends (uncompress : codec)
    (fs : gmap string (list Z)) (this this' : GPK) (file_name : string) :
  load uncompress fs this file_name = Some (true, this') ->
  archive_name this' = file_name
  /\ exists new,
       entries this' = entries this ++ new
       /\ Forall (fun e => name_is_clean (name e)) new.
Proof.
  unfold load. intros H.
  destruct (read_signature fs file_name) as [[[package fileSize] sign]|];
    [|discriminate].
  unfold load_index in H.
  destruct (decompress_data uncompress _) as [err|data]; [discriminate|].
  destruct (parse_loop _ _ _ _) as [result|] eqn:E; [|discriminate].
  injection H as <-. split; [reflexivity|]. simpl.
  exact (parse_loop_appends _ _ _ _ _ E).
Qed.

Lemma load_success_appends_witness :
  archive_name
    {| entries :=
         [ {| name := name_backslash;
              header := GPKEntryHeader_of_bytes header_bytes |} ];
       archive_name := "packs/a.GPK" |} = "packs/a.GPK"%string
  /\ exists new,
       entries
         {| entries :=
              [ {| name := name_backslash;
                   header := GPKEntryHeader_of_bytes header_bytes |} ];
            archive_name := "packs/a.GPK" |}
       = entries (mkGPK [] EmptyString) ++ new
       /\ Forall (fun e => name_is_clean (name e)) new.
Proof.
  apply (load_success_appends StoredZlib.uncompress fs_backslash
           (mkGPK [] EmptyString)).
  vm_compute. reflexivity.
Defined.

(** ** The signature test *)

Lemma slice_slice {A} (v : list A) a m b len :
  0 <= a -> 0 <= b -> 0 <= len -> b + len <= m ->
  slice (slice v a m) b len = slice v (a + b) len.
Proof.
  intros Ha Hb Hl Hm. unfold slice.
  replace (Z.to_nat m) with (Z.to_nat b + (Z.to_nat m - Z.to_nat b))%nat
    by lia.
  rewrite <- take_drop_commute, take_take, drop_drop.
  rewrite Z2Nat.inj_add by assumption.
  f_equal. lia.
Qed.

Lemma slice_app_middle {A} (pre x post : list A) :
  slice (pre ++ x ++ post) (vsize pre) (vsize x) = x.
Proof.
  unfold slice, vsize. rewrite !Nat2Z.id.
  rewrite drop_app_length. apply take_app_length.
Qed.

(** [strncmp] against a literal without embedded NUL, over the length of
    the literal: zero exactly when the other string starts with the
    literal's characters. *)
Lemma strncmp_literal lit : forall rest t,
  Forall (fun c => c <> 0) lit ->
  strncmp (lit ++ rest) t (length lit) = 0 <-> take (length lit) t = lit.
Proof.
  induction lit as [|c lit IH]; intros rest t Hnz; [easy|].
  inversion Hnz as [|? ? Hc Hlit]; subst.
  cbn [length strncmp app].
  change (at_ (c :: lit ++ rest) 0) with c.
  destruct t as [|d t].
  - change (at_ [] 0) with 0.
    destruct (Z.eqb_spec c 0); [contradiction|]. simpl.
    split; [lia | discriminate].
  - change (at_ (d :: t) 0) with d.
    destruct (Z.eqb_spec c d) as [<-|Hne]; simpl.
    + destruct (Z.eqb_spec c 0); [contradiction|].
      rewrite (IH rest t Hlit).
      split; [intros ->; reflexivity | now intros [= ->]].
    + split; [lia | intros [= ? _]; congruence].
Qed.

Lemma ident0_test t :
  strncmp GPK_TAILER_IDENT0 t (strlen GPK_TAILER_IDENT0) = 0
  <-> take 12 t = ident0_bytes.
Proof.
  apply (strncmp_literal ident0_bytes [0] t).
  vm_compute. repeat constructor; discriminate.
Qed.

Lemma ident1_test t :
  strncmp GPK_TAILER_IDENT1 t (strlen GPK_TAILER_IDENT1) = 0
  <-> take 16 t = ident1_bytes.
Proof.
  apply (strncmp_literal ident1_bytes [0] t).
  vm_compute. repeat constructor; discriminate.
Qed.

Lemma eqb0_decide x (P : Prop) `{Decision P} :
  (x = 0 <-> P) -> (x =? 0) = bool_decide P.
Proof.
  intros HP. destruct (Z.eqb_spec x 0); case_bool_decide;
    [reflexivity | exfalso; tauto | exfalso; tauto | reflexivity].
Qed.

Section Signature.

Variable uncompress : codec.
Variable fs : gmap string (list Z).
Variable file_name : string.
Variable content : list Z.
Hypothesis file_content : fs !! file_name = Some content.
Hypothesis content_size : vsize content <= vector_max_size.

(** The outcome of opening the package and testing the trailer, in terms
    of the file's bytes. *)
Lemma read_signature_outcome :
  read_signature fs file_name
  = if (32 <=? vsize content)
       && bool_decide
            (slice content (vsize content - 32) 12 = ident0_bytes)
       && bool_decide
            (slice content (vsize content - 16) 16 = ident1_bytes)
    then Some (mkifstream content (vsize content) false false 32,
               vsize content,
               GPKsig_of_bytes (slice content (vsize content - 32) 32))
    else None.
Proof.
  unfold read_signature, ifstream_open. rewrite file_content.
  unfold vector_max_size in content_size.
  pose proof (vsize_nonneg content) as Hnn.
  simpl fmap. cbv beta iota.
  change (seekg_end (mkifstream content 0 false false 0))
    with (mkifstream content (vsize content) false false 0).
  change (tellg (mkifstream content (vsize content) false false 0))
    with (vsize content).
  rewrite sizeof_GPKsig_eq.
  rewrite to_int64_size_sub by lia.
  unfold seekg. simpl failbit. cbv iota.
  destruct (Z.leb_spec 32 (vsize content)) as [Hlong|Hshort].
  - destruct (Z.ltb_spec (vsize content - 32) 0); [lia|].
    simpl file. simpl last_gcount.
    rewrite (read_in_range content (vsize content - 32) 0 32) by lia.
    replace (vsize content - 32 + 32) with (vsize content) by lia.
    set (raw := slice content (vsize content - 32) 32).
    change (gcount (mkifstream content (vsize content) false false 32))
      with 32.
    change (negb (32 =? 32)) with false. rewrite orb_false_l.
    change (sig0 (GPKsig_of_bytes raw)) with (slice raw 0 12).
    change (sig1 (GPKsig_of_bytes raw)) with (slice raw 16 16).
    assert (H0 : slice raw 0 12 = slice content (vsize content - 32) 12).
    { unfold raw. rewrite slice_slice by lia. f_equal. lia. }
    assert (H1 : slice raw 16 16 = slice content (vsize content - 16) 16).
    { unfold raw. rewrite slice_slice by lia. f_equal. lia. }
    rewrite H0, H1. rewrite andb_true_l.
    assert (Hlen0 : forall off, take 12 (slice content off 12)
                                = slice content off 12)
      by (intros off; unfold slice; apply take_take).
    assert (Hlen1 : forall off, take 16 (slice content off 16)
                                = slice content off 16)
      by (intros off; unfold slice; apply take_take).
    pose proof (ident0_test (slice content (vsize content - 32) 12)) as T0.
    pose proof (ident1_test (slice content (vsize content - 16) 16)) as T1.
    rewrite Hlen0 in T0. rewrite Hlen1 in T1.
    rewrite (eqb0_decide _ _ T0), (eqb0_decide _ _ T1).
    do 2 case_bool_decide; reflexivity.
  - destruct (Z.ltb_spec (vsize content - 32) 0); [|lia].
    rewrite read_failed. reflexivity.
Qed.

(** A file shorter than the trailer, or whose last 32 bytes do not carry
    both signature strings exactly, is rejected: [load] returns false and
    leaves the entries alone. *)
Theorem load_rejects_bad_trailer (this : GPK) :
  vsize content < 32
  \/ slice content (vsize content - 32) 12 <> ident0_bytes
  \/ slice content (vsize content - 16) 16 <> ident1_bytes ->
  load uncompress fs this file_name
  = Some (false,
          {| entries := entries this; archive_name := file_name |}).
Proof.
  intros H. unfold load. rewrite read_signature_outcome.
  destruct (Z.leb_spec 32 (vsize content)); simpl; [|reflexivity].
  repeat case_bool_decide; simpl; try reflexivity.
  destruct H as [H|[H|H]]; [lia | contradiction | contradiction].
Qed.

End Signature.

Lemma load_rejects_bad_trailer_witness :
  load StoredZlib.uncompress fs_three_bytes (mkGPK [] "old.GPK")
    "packs/s.GPK"
  = Some (false, {| entries := []; archive_name := "packs/s.GPK" |}).
Proof.
  apply (load_rejects_bad_trailer StoredZlib.uncompress fs_three_bytes
           "packs/s.GPK" [1; 2; 3]).
  - reflexivity.
  - discriminate.
  - left. reflexivity.
Defined.

(** ** A well-formed trailer *)

Lemma slice_app_tail {A} (pre x : list A) k len :
  0 <= k -> slice (pre ++ x) (vsize pre + k) len = slice x k len.
Proof.
  intros Hk. unfold slice, vsize.
  rewrite Z2Nat.inj_add, Nat2Z.id by lia.
  now rewrite drop_app_add.
Qed.

Lemma le_uint_le32 x : 0 <= x < 2 ^ 32 -> le_uint (le32 x) = x.
Proof.
  intros H. unfold le32, le_uint. cbn [foldr].
  Z.div_mod_to_equations. lia.
Qed.

Section ValidTrailer.

Variable uncompress : codec.
Variable fs : gmap string (list Z).
Variable file_name : string.
Variables body blob : list Z.

Let content : list Z := body ++ blob ++ trailer_bytes (vsize blob).

Hypothesis file_content : fs !! file_name = Some content.
Hypothesis content_size : vsize content <= vector_max_size.
Hypothesis blob_size : vsize blob < 2 ^ 32.

Lemma content_vsize : vsize content = vsize body + vsize blob + 32.
Proof.
  unfold content, vsize. rewrite !length_app.
  change (length (trailer_bytes (Z.of_nat (length blob)))) with 32%nat.
  lia.
Qed.

Lemma content_trailer k len :
  0 <= k ->
  slice content (vsize content - 32 + k) len
  = slice (trailer_bytes (vsize blob)) k len.
Proof.
  intros Hk. unfold content. rewrite app_assoc.
  rewrite <- (slice_app_tail (body ++ blob) _ k len Hk).
  f_equal. unfold vsize. rewrite !length_app.
  change (length (trailer_bytes (Z.of_nat (length blob)))) with 32%nat.
  lia.
Qed.

(** Reading a file that ends with a blob followed by a trailer carrying
    both signatures and the blob's length. *)
Lemma valid_trailer_blob :
  let sign :=
    GPKsig_of_bytes (slice content (vsize content - 32) 32) in
  let package := mkifstream content (vsize content) false false 32 in
  read_signature fs file_name = Some (package, vsize content, sign)
  /\ pidx_length sign = vsize blob
  /\ fst (read_index package (vsize content) sign) = blob.
Proof.
  intros sign package. subst sign package.
  pose proof content_vsize as Hn.
  pose proof (vsize_nonneg body) as Hb.
  pose proof (vsize_nonneg blob) as Hl.
  unfold vector_max_size in content_size.
  assert (Hsig : read_signature fs file_name
                 = Some (mkifstream content (vsize content) false false 32,
                         vsize content,
                         GPKsig_of_bytes
                           (slice content (vsize content - 32) 32))).
  { rewrite (read_signature_outcome fs file_name content file_content
               content_size).
    destruct (Z.leb_spec 32 (vsize content)); [|lia].
    pose proof (content_trailer 0 12 ltac:(lia)) as T0.
    pose proof (content_trailer 16 16 ltac:(lia)) as T1.
    rewrite Z.add_0_r in T0.
    replace (vsize content - 32 + 16) with (vsize content - 16) in T1
      by lia.
    rewrite T0, T1.
    rewrite !bool_decide_eq_true_2 by reflexivity. reflexivity. }
  assert (Hpidx : pidx_length
                    (GPKsig_of_bytes (slice content (vsize content - 32) 32))
                  = vsize blob).
  { pose proof (content_trailer 0 32 ltac:(lia)) as T.
    rewrite Z.add_0_r in T. rewrite T.
    change (pidx_length (GPKsig_of_bytes (trailer_bytes (vsize blob))))
      with (le_uint (le32 (vsize blob))).
    apply le_uint_le32. lia. }
  assert (Hread : fst (read_index
                          (mkifstream content (vsize content) false false 32)
                          (vsize content)
                          (GPKsig_of_bytes
                             (slice content (vsize content - 32) 32)))
                  = blob).
  { unfold read_index. rewrite Hpidx. unfold index_offset.
    rewrite sizeof_GPKsig_eq.
    rewrite (size_sub_small (vsize content) 32) by lia.
    rewrite to_int64_size_sub by lia.
    unfold seekg. simpl failbit. cbv iota.
    destruct (Z.ltb_spec (vsize content - 32 - vsize blob) 0); [lia|].
    simpl file. simpl last_gcount.
    rewrite read_in_range by lia.
    replace (vsize content - 32 - vsize blob) with (vsize body) by lia.
    apply slice_app_middle. }
  split; [exact Hsig|]. split; [exact Hpidx | exact Hread].
Qed.

(** A file that ends with a blob followed by a trailer carrying both
    signatures and the blob's length is accepted, the trailer's
    [pidx_length] is that length, the bytes read for the index are
    exactly the blob, and [load] continues with them. *)
Theorem load_reads_blob_before_trailer (this : GPK) :
  exists package sign,
    read_signature fs file_name = Some (package, vsize content, sign)
    /\ pidx_length sign = vsize blob
    /\ fst (read_index package (vsize content) sign) = blob
    /\ load uncompress fs this file_name
       = load_index uncompress
           {| entries := entries this; archive_name := file_name |} blob.
Proof.
  destruct valid_trailer_blob as (Hsig & Hpidx & Hread).
  do 2 eexists. split; [exact Hsig|]. split; [exact Hpidx|].
  split; [exact Hread|].
  unfold load. rewrite Hsig, Hread. reflexivity.
Qed.

End ValidTrailer.

Lemma load_reads_blob_before_trailer_witness :
  exists package sign,
    read_signature fs_backslash "packs/a.GPK"
    = Some (package, vsize archive_backslash, sign)
    /\ pidx_length sign = 46
    /\ fst (read_index package (vsize archive_backslash) sign)
       = decrypt (be32 (vsize record_backslash) ++ zlib_stored record_backslash)
    /\ load StoredZlib.uncompress fs_backslash (mkGPK [] EmptyString)
         "packs/a.GPK"
       = load_index StoredZlib.uncompress
           {| entries := []; archive_name := "packs/a.GPK" |}
           (decrypt
              (be32 (vsize record_backslash) ++ zlib_stored record_backslash)).
Proof.
  apply (load_reads_blob_before_trailer StoredZlib.uncompress fs_backslash
           "packs/a.GPK" [170; 187; 204]
           (decrypt
              (be32 (vsize record_backslash)
               ++ zlib_stored record_backslash))).
  - reflexivity.
  - discriminate.
  - reflexivity.
Defined.

(** ** [utf16le_to_utf8] *)

Lemma string_of_bytes_length bs :
  String.length (string_of_bytes bs) = length bs.
Proof. induction bs as [|b bs IH]; simpl; congruence. Qed.

Lemma utf8_bmp_length u : (1 <= length (utf8_bmp u) <= 3)%nat.
Proof.
  unfold utf8_bmp. destruct (u <? 128); [simpl; lia|].
  destruct (u <? 2048); simpl; lia.
Qed.

Lemma utf8_of_units_length_bounded n : forall units,
  (length units <= n)%nat ->
  (length units <= length (utf8_of_units units) <= 3 * length units)%nat.
Proof.
  induction n as [|n IH]; intros units Hn.
  - destruct units; [simpl; lia | simpl in Hn; lia].
  - destruct units as [|u [|low rest]]; [simpl; lia | |].
    + pose proof (utf8_bmp_length u). cbn [utf8_of_units].
      rewrite length_app. simpl. lia.
    + cbn [utf8_of_units].
      destruct (is_high_surrogate u && is_low_surrogate low).
      * pose proof (IH rest ltac:(simpl in Hn; lia)).
        rewrite length_app. simpl in *. lia.
      * pose proof (IH (low :: rest) ltac:(simpl in *; lia)).
        pose proof (utf8_bmp_length u).
        rewrite length_app. simpl in *. lia.
Qed.

(** The decoded name has at least one byte and at most three bytes per
    UTF-16 code unit.  (The source reserves two bytes per unit; three is
    the bound that holds.) *)
Theorem utf16le_to_utf8_length (data : list Z) (length_in_chars : Z) :
  (Z.to_nat length_in_chars
   <= String.length (utf16le_to_utf8 data length_in_chars)
   <= 3 * Z.to_nat length_in_chars)%nat.
Proof.
  unfold utf16le_to_utf8. rewrite string_of_bytes_length.
  set (units := _ <$> seq 0 (Z.to_nat length_in_chars)).
  assert (Hl : length units = Z.to_nat length_in_chars)
    by (unfold units; now rewrite length_fmap, length_seq).
  rewrite <- Hl. apply (utf8_of_units_length_bounded (length units)). lia.
Qed.

Lemma lor_high a n y :
  0 <= n -> 0 <= y < 2 ^ n -> Z.lor (a * 2 ^ n) y = a * 2 ^ n + y.
Proof. apply lor_shifted_small. Qed.

Lemma land_63 x : Z.land x 63 = x mod 64.
Proof. change 63 with (Z.ones 6). now rewrite Z.land_ones by lia. Qed.

(** A code unit that goes through the BMP branch is written in standard
    UTF-8: one byte below U+0080, a lead byte [110xxxxx] and one
    continuation byte below U+0800, a lead byte [1110xxxx] and two
    continuation bytes otherwise. *)
Theorem utf8_bmp_standard (u : Z) :
  0 <= u < 65536 ->
  utf8_bmp u
  = if u <? 128 then [u]
    else if u <? 2048 then [192 + u / 64; 128 + u mod 64]
    else [224 + u / 4096; 128 + u / 64 mod 64; 128 + u mod 64].
Proof.
  intros Hu. unfold utf8_bmp.
  destruct (Z.ltb_spec u 128); [reflexivity|].
  rewrite !land_63, !Z.shiftr_div_pow2 by lia.
  change (2 ^ 6) with 64. change (2 ^ 12) with 4096.
  assert (Hc : forall y, 0 <= y < 64 -> Z.lor 128 y = 128 + y)
    by (intros y Hy; apply (lor_high 1 7); lia).
  assert (H2 : forall y, 0 <= y < 64 -> Z.lor 192 y = 192 + y)
    by (intros y Hy; apply (lor_high 3 6); lia).
  assert (H3 : forall y, 0 <= y < 32 -> Z.lor 224 y = 224 + y)
    by (intros y Hy; apply (lor_high 7 5); lia).
  destruct (Z.ltb_spec u 2048).
  - rewrite H2
      by (split; [apply Z.div_pos; lia
                 | apply Z.div_lt_upper_bound; lia]).
    rewrite Hc by (apply Z.mod_pos_bound; lia). reflexivity.
  - rewrite H3
      by (split; [apply Z.div_pos; lia
                 | apply Z.div_lt_upper_bound; lia]).
    rewrite !Hc by (apply Z.mod_pos_bound; lia). reflexivity.
Qed.

Lemma utf8_bmp_standard_witness :
  utf8_bmp 12354
  = if 12354 <? 128 then [12354]
    else if 12354 <? 2048 then [192 + 12354 / 64; 128 + 12354 mod 64]
    else [224 + 12354 / 4096; 128 + 12354 / 64 mod 64; 128 + 12354 mod 64].
Proof. apply (utf8_bmp_standard 12354). lia. Defined.

(** A high surrogate followed by a low surrogate is combined into one
    code point above the BMP, at most U+10FFFF, and written as the four
    bytes of its standard UTF-8 form; decoding goes on after the pair. *)
Theorem utf8_pair_standard (high low : Z) (rest : list Z) :
  55296 <= high <= 56319 ->
  56320 <= low <= 57343 ->
  let cp := surrogate_code_point high low in
  65536 <= cp <= 1114111
  /\ utf8_of_units (high :: low :: rest)
     = [ 240 + cp / 262144; 128 + cp / 4096 mod 64;
         128 + cp / 64 mod 64; 128 + cp mod 64 ]
       ++ utf8_of_units rest.
Proof.
  intros Hh Hl cp.
  assert (Hcp : 65536 <= cp <= 1114111)
    by (unfold cp, surrogate_code_point; lia).
  split; [exact Hcp|].
  cbn [utf8_of_units].
  replace (is_high_surrogate high) with true
    by (unfold is_high_surrogate; symmetry; apply andb_true_iff; lia).
  replace (is_low_surrogate low) with true
    by (unfold is_low_surrogate; symmetry; apply andb_true_iff; lia).
  cbn [andb]. f_equal. unfold utf8_pair.
  assert (Hhi : Z.land high 1023 = high - 55296).
  { change 1023 with (Z.ones 10). rewrite Z.land_ones by lia.
    symmetry. apply (Z.mod_unique high (2 ^ 10) 54); lia. }
  assert (Hlo : Z.land low 1023 = low - 56320).
  { change 1023 with (Z.ones 10). rewrite Z.land_ones by lia.
    symmetry. apply (Z.mod_unique low (2 ^ 10) 55); lia. }
  rewrite Hhi, Hlo, Z.shiftl_mul_pow2 by lia.
  assert (Hw : wrap32 (65536 + (high - 55296) * 2 ^ 10 + (low - 56320))
               = cp).
  { unfold wrap32. rewrite wrap_small by lia.
    unfold cp, surrogate_code_point. lia. }
  rewrite Hw.
  rewrite !land_63, !Z.shiftr_div_pow2 by lia.
  change (2 ^ 18) with 262144. change (2 ^ 12) with 4096.
  change (2 ^ 6) with 64.
  assert (Hc : forall y, 0 <= y < 64 -> Z.lor 128 y = 128 + y)
    by (intros y Hy; apply (lor_high 1 7); lia).
  assert (H4 : forall y, 0 <= y < 16 -> Z.lor 240 y = 240 + y)
    by (intros y Hy; apply (lor_high 15 4); lia).
  rewrite H4
    by (split; [apply Z.div_pos; lia | apply Z.div_lt_upper_bound; lia]).
  rewrite !Hc by (apply Z.mod_pos_bound; lia). reflexivity.
Qed.

Lemma utf8_pair_standard_witness :
  65536 <= surrogate_code_point 55357 56832 <= 1114111
  /\ utf8_of_units [55357; 56832]
     = [ 240 + surrogate_code_point 55357 56832 / 262144;
         128 + surrogate_code_point 55357 56832 / 4096 mod 64;
         128 + surrogate_code_point 55357 56832 / 64 mod 64;
         128 + surrogate_code_point 55357 56832 mod 64 ]
       ++ utf8_of_units [].
Proof. apply (utf8_pair_standard 55357 56832 []); lia. Defined.

(** Reading the code units back from their UTF-16LE bytes. *)
Lemma utf16_at_cons a b data (i : nat) :
  utf16_at (a :: b :: data) (Z.of_nat (S i)) = utf16_at data (Z.of_nat i).
Proof.
  unfold utf16_at, at_.
  replace (Z.to_nat (Z.of_nat (S i) * 2)) with (S (S (2 * i)))%nat by lia.
  replace (Z.to_nat (Z.of_nat (S i) * 2 + 1)) with (S (S (2 * i + 1)))%nat
    by lia.
  replace (Z.to_nat (Z.of_nat i * 2)) with (2 * i)%nat by lia.
  replace (Z.to_nat (Z.of_nat i * 2 + 1)) with (2 * i + 1)%nat by lia.
  reflexivity.
Qed.

Lemma utf16_at_head lo hi data :
  utf16_at (lo :: hi :: data) 0 = wrap16 (Z.lor lo (Z.shiftl hi 8)).
Proof. reflexivity. Qed.

Lemma utf16_units_encode units : forall rest,
  Forall (fun u => 0 <= u < 65536) units ->
  (fun i => utf16_at (utf16le_encode units ++ rest) (Z.of_nat i))
    <$> seq 0 (length units)
  = units.
Proof.
  induction units as [|u units IH]; intros rest Hu; [reflexivity|].
  inversion Hu as [|? ? Hu0 Hus]; subst.
  cbn [length seq fmap list_fmap]. f_equal.
  - unfold utf16le_encode. cbn [fmap list_fmap concat app].
    change (Z.of_nat 0) with 0. rewrite utf16_at_head.
    rewrite Z.shiftl_mul_pow2, Z.lor_comm by lia.
    rewrite lor_shifted_small by (try apply Z.mod_pos_bound; lia).
    unfold wrap16. rewrite wrap_small; Z.div_mod_to_equations; lia.
  - rewrite <- fmap_S_seq, <- list_fmap_compose.
    rewrite <- (IH rest Hus) at 2.
    apply list_fmap_ext. intros _ i _. simpl.
    unfold utf16le_encode. cbn [fmap list_fmap concat app].
    apply utf16_at_cons.
Qed.

Lemma utf8_of_units_ascii cs :
  Forall (fun c => 0 <= c < 128) cs -> utf8_of_units cs = cs.
Proof.
  induction 1 as [|c cs Hc Hcs IH]; [reflexivity|].
  assert (Hb : utf8_bmp c = [c])
    by (unfold utf8_bmp; destruct (Z.ltb_spec c 128); [reflexivity|lia]).
  assert (Hs : is_high_surrogate c = false)
    by (unfold is_high_surrogate; apply andb_false_iff; lia).
  cbn [utf8_of_units]. destruct cs as [|d cs'].
  - rewrite Hb. reflexivity.
  - rewrite Hs, Hb. cbn [andb app]. now rewrite IH.
Qed.

(** Decoding the UTF-16LE bytes of an ASCII text gives the text back,
    whatever follows the name in the buffer. *)
Theorem utf16le_to_utf8_ascii (cs rest : list Z) :
  Forall (fun c => 0 <= c < 128) cs ->
  utf16le_to_utf8 (utf16le_encode cs ++ rest) (vsize cs)
  = string_of_bytes cs.
Proof.
  intros Hcs. unfold utf16le_to_utf8, vsize. rewrite Nat2Z.id.
  rewrite utf16_units_encode
    by (eapply Forall_impl; [exact Hcs | simpl; intros; lia]).
  now rewrite utf8_of_units_ascii.
Qed.

Lemma utf16le_to_utf8_ascii_witness :
  utf16le_to_utf8 (utf16le_encode [72; 101; 108; 108; 111] ++ [0; 0]) 5
  = string_of_bytes [72; 101; 108; 108; 111].
Proof.
  apply (utf16le_to_utf8_ascii [72; 101; 108; 108; 111] [0; 0]).
  repeat constructor; lia.
Defined.

(** ** Extraction beyond the good case *)

Section ExtractionAny.

Variable env : environment.
Variable parent_path : string -> string.
Variables archive dir : string.
Variable bytes : list Z.






(** The calls one execution of the loop body adds. *)
Lemma unpack_entry_calls entries st entry :
  entry ∈ entries ->
  exists new,
    Forall (extraction_event parent_path dir entries) new
    /\ match unpack_entry env parent_path archive dir st entry with
       | inl st' => snd st' = snd st ++ new
       | inr h' => h' = snd st ++ new
       end.
Proof.
  intros Hin. destruct st as [package h]. unfold unpack_entry. cbn [snd].
  assert (Hdir : extraction_event parent_path dir entries
                   (Create_directories
                      (parent_path (String.append dir (name entry)))))
    by (right; eauto).
  assert (Hthrew : extraction_event parent_path dir entries
                     (Create_directories_threw
                        (parent_path (String.append dir (name entry)))))
    by (right; eauto).
  destruct (if String.eqb _ _ then _ else _) as [h1|] eqn:E.
  - destruct (read _ _ _) as [buffer package'].
    assert (Hev : forall ev,
              extraction_event parent_path dir entries ev ->
              exists new,
                Forall (extraction_event parent_path dir entries) new
                /\ h1 ++ [ev] = h ++ new).
    { intros ev Hev.
      destruct (directory_step_extends _ _ _ _ E) as [->| ->].
      - exists [ev]. split; [now constructor | reflexivity].
      - eexists. rewrite <- app_assoc. split; [|reflexivity].
        constructor; [exact Hdir | now constructor]. }
    destruct (ofstream_opens env h1 _); cbn [snd]; apply Hev;
      simpl; eauto.
  - exists [Create_directories_threw
              (parent_path (String.append dir (name entry)))].
    split; [now constructor | reflexivity].
Qed.

Lemma unpack_entries_calls entries es : forall st,
  (forall e, e ∈ es -> e ∈ entries) ->
  exists new,
    Forall (extraction_event parent_path dir entries) new
    /\ snd (unpack_entries env parent_path archive dir st es)
       = snd st ++ new.
Proof.
  induction es as [|entry es IH]; intros st Hsub.
  - exists []. split; [constructor | now rewrite app_nil_r].
  - cbn [unpack_entries].
    destruct (unpack_entry_calls entries st entry) as (new1 & H1 & Hst);
      [apply Hsub; left|].
    destruct (unpack_entry env parent_path archive dir st entry)
      as [st'|h'].
    + destruct (IH st') as (new2 & H2 & Hst');
        [intros e He; apply Hsub; now right|].
      exists (new1 ++ new2).
      split; [now apply Forall_app|].
      rewrite Hst', Hst. now rewrite app_assoc.
    + exists new1. split; [exact H1 | exact Hst].
Qed.

End ExtractionAny.





(** The calls of [unpack_all] are calls for its directory and its
    entries. *)
Lemma unpack_all_steps (env : environment)
    (parent_path : string -> string) (this : GPK) (dir : string)
    (h : list fs_event) :
  exists new,
    snd (unpack_all env parent_path this dir h) = h ++ new
    /\ Forall (extraction_event parent_path dir (entries this)) new.
Proof.
  unfold unpack_all.
  destruct (file_bytes env h (archive_name this)) as [content|];
    [|exists []; split; [now rewrite app_nil_r | constructor]].
  unfold create_directories.
  destruct (create_directories_ok env h dir).
  - destruct (unpack_entries_calls env parent_path (archive_name this) dir
                (entries this) (entries this)
                (mkifstream content 0 false false 0,
                 h ++ [Create_directories dir]))
      as (new & Hnew & Heq); [auto|].
    rewrite Heq. cbn [snd]. rewrite <- app_assoc.
    eexists. split; [reflexivity|].
    constructor; [now left | exact Hnew].
  - exists [Create_directories_threw dir].
    split; [reflexivity | constructor; [now left | constructor]].
Qed.

(** When the archive does not open, [unpack_all] returns without a
    single call to the file system: no directory is created and nothing
    is written.  Otherwise the only paths it passes to
    [create_directories] are [dir] and the parents of [dir + name], and
    the only paths it passes to [std::ofstream] are [dir + name], for
    the entries of the index. *)
Theorem unpack_all_calls (env : environment)
    (parent_path : string -> string) (this : GPK) (dir : string)
    (h : list fs_event) :
  (file_bytes env h (archive_name this) = None ->
   unpack_all env parent_path this dir h = (Returned, h))
  /\ exists new,
       snd (unpack_all env parent_path this dir h) = h ++ new
       /\ Forall (extraction_event parent_path dir (entries this)) new.
Proof.
  split.
  - intros Hnone. unfold unpack_all. now rewrite Hnone.
  - apply unpack_all_steps.
Qed.

(** ** [getName] *)

Lemma find_last_of_from_absent chars s : forall i,
  Forall (fun c => c ∉ chars) (list_ascii_of_string s) ->
  find_last_of_from chars s i = None.
Proof.
  induction s as [|c s IH]; intros i H; [reflexivity|].
  inversion H as [|? ? Hc Hs]; subst. cbn [find_last_of_from].
  rewrite (IH (S i) Hs). now rewrite bool_decide_eq_false_2.
Qed.

Lemma find_last_of_from_last chars pre c post : forall i,
  c ∈ chars ->
  Forall (fun x => x ∉ chars) (list_ascii_of_string post) ->
  find_last_of_from chars (String.append pre (String c post)) i
  = Some (i + String.length pre)%nat.
Proof.
  induction pre as [|a pre IH]; intros i Hc Hpost.
  - change (String.append EmptyString (String c post))
      with (String c post).
    cbn [find_last_of_from String.length].
    rewrite (find_last_of_from_absent chars post (S i) Hpost).
    rewrite bool_decide_eq_true_2 by exact Hc. f_equal. lia.
  - change (String.append (String a pre) (String c post))
      with (String a (String.append pre (String c post))).
    cbn [find_last_of_from String.length].
    rewrite (IH (S i) Hc Hpost). f_equal. lia.
Qed.

(** A position found by [find_last_of] splits the string at the last
    character of the set. *)
Lemma find_last_of_from_split chars s : forall i j,
  find_last_of_from chars s i = Some j ->
  exists pre c post,
    s = String.append pre (String c post)
    /\ j = (i + String.length pre)%nat
    /\ c ∈ chars
    /\ Forall (fun x => x ∉ chars) (list_ascii_of_string post).
Proof.
  induction s as [|a s IH]; intros i j H; [discriminate|].
  cbn [find_last_of_from] in H.
  destruct (find_last_of_from chars s (S i)) as [k|] eqn:E.
  - injection H as <-.
    destruct (IH (S i) k E) as (pre & c & post & -> & -> & Hc & Hp).
    exists (String a pre), c, post. repeat split; try assumption.
    simpl. lia.
  - case_bool_decide as Ha; [|discriminate]. injection H as <-.
    exists EmptyString, a, s. repeat split; [simpl; lia | exact Ha |].
    clear -E. revert E. generalize (S i) as k.
    induction s as [|b s IHs]; intros k E; [constructor|].
    cbn [find_last_of_from] in E.
    destruct (find_last_of_from chars s (S k)) eqn:E'; [discriminate|].
    case_bool_decide as Hb; [discriminate|].
    constructor; [exact Hb | exact (IHs (S k) E')].
Qed.

Lemma find_last_of_from_none_inv chars s : forall i,
  find_last_of_from chars s i = None ->
  Forall (fun x => x ∉ chars) (list_ascii_of_string s).
Proof.
  induction s as [|b s IHs]; intros k E; [constructor|].
  cbn [find_last_of_from] in E.
  destruct (find_last_of_from chars s (S k)) eqn:E'; [discriminate|].
  case_bool_decide as Hb; [discriminate|].
  constructor; [exact Hb | exact (IHs (S k) E')].
Qed.

Lemma substring_all s : String.substring 0 (String.length s) s = s.
Proof. induction s as [|c s IH]; simpl; congruence. Qed.

Lemma substring_after pre c post :
  String.substring (String.length pre + 1)
    (String.length (String.append pre (String c post))
     - (String.length pre + 1))
    (String.append pre (String c post))
  = post.
Proof.
  induction pre as [|a pre IH].
  - simpl. rewrite Nat.sub_0_r. apply substring_all.
  - simpl. exact IH.
Qed.

Lemma substring_before pre rest :
  String.substring 0 (String.length pre) (String.append pre rest) = pre.
Proof.
  induction pre as [|a pre IH]; [destruct rest; reflexivity|].
  simpl. now rewrite IH.
Qed.

Lemma substring_prefix_Forall (P : ascii -> Prop) s : forall n,
  Forall P (list_ascii_of_string s) ->
  Forall P (list_ascii_of_string (String.substring 0 n s)).
Proof.
  induction s as [|c s IH]; intros n H; [destruct n; constructor|].
  inversion H as [|? ? Hc Hs]; subst.
  destruct n as [|n]; [constructor|]. simpl.
  constructor; [exact Hc | apply IH, Hs].
Qed.

(** The display name never contains a path separator, whatever the
    stored path is. *)
Theorem display_name_no_separator (path : string) :
  Forall (fun c => c ∉ [backslash; "/"%char])
    (list_ascii_of_string (display_name path)).
Proof.
  unfold display_name.
  set (filename := match find_last_of _ path with
                   | Some _ => _ | None => _ end).
  assert (Hf : Forall (fun c => c ∉ [backslash; "/"%char])
                 (list_ascii_of_string filename)).
  { unfold filename, find_last_of.
    destruct (find_last_of_from _ path 0) as [j|] eqn:E.
    - destruct (find_last_of_from_split _ _ _ _ E)
        as (pre & c & post & -> & -> & _ & Hp).
      cbn [Nat.add]. rewrite substring_after. exact Hp.
    - eapply find_last_of_from_none_inv. exact E. }
  destruct (find_last_of _ filename); [|exact Hf].
  apply substring_prefix_Forall. exact Hf.
Qed.

(** For a path made of a directory part, a separator, a base name without
    separators, a dot and an extension without dots or separators, the
    display name is the base name; the same holds without the directory
    part.  Dots inside the base name are kept. *)
Theorem display_name_base (dir base ext : string) (sep : ascii) :
  sep ∈ [backslash; "/"%char] ->
  Forall (fun c => c ∉ [backslash; "/"%char]) (list_ascii_of_string base) ->
  Forall (fun c => c ∉ [backslash; "/"%char; "."%char])
    (list_ascii_of_string ext) ->
  display_name
    (String.append dir (String sep (String.append base (String "." ext))))
  = base
  /\ display_name (String.append base (String "." ext)) = base.
Proof.
  intros Hsep Hbase Hext.
  assert (Hdot : Forall (fun c => c ∉ ["."%char])
                   (list_ascii_of_string ext))
    by (eapply Forall_impl; [exact Hext|]; simpl; intros c Hc;
        rewrite !not_elem_of_cons in Hc; rewrite !not_elem_of_cons;
        tauto).
  assert (Hext' : Forall (fun c => c ∉ [backslash; "/"%char])
                    (list_ascii_of_string ext))
    by (eapply Forall_impl; [exact Hext|]; simpl; intros c Hc;
        rewrite !not_elem_of_cons in Hc; rewrite !not_elem_of_cons;
        tauto).
  assert (Hfile : Forall (fun c => c ∉ [backslash; "/"%char])
                    (list_ascii_of_string
                       (String.append base (String "." ext)))).
  { clear -Hbase Hext'. induction base as [|b base IH].
    - simpl. constructor; [|exact Hext'].
      rewrite !not_elem_of_cons.
      repeat split; [discriminate | discriminate | apply not_elem_of_nil].
    - inversion Hbase; subst. simpl. constructor; auto. }
  assert (Hcut : match find_last_of ["."%char]
                         (String.append base (String "." ext)) with
                 | Some dotPos =>
                     String.substring 0 dotPos
                       (String.append base (String "." ext))
                 | None => String.append base (String "." ext)
                 end = base).
  { unfold find_last_of.
    rewrite (find_last_of_from_last ["."%char] base "." ext 0)
      by (apply list_elem_of_singleton; reflexivity) || exact Hdot.
    cbn [Nat.add]. apply substring_before. }
  split; unfold display_name, find_last_of.
  - rewrite (find_last_of_from_last _ dir sep _ 0 Hsep Hfile).
    cbn [Nat.add]. rewrite substring_after. exact Hcut.
  - rewrite (find_last_of_from_absent _ _ 0 Hfile). exact Hcut.
Qed.

Lemma display_name_base_witness :
  display_name
    (String.append "game/packs"
       (String "/" (String.append "Voice.v1" (String "." "GPK"))))
  = "Voice.v1"%string
  /\ display_name (String.append "Voice.v1" (String "." "GPK"))
     = "Voice.v1"%string.
Proof.
  apply (display_name_base "game/packs" "Voice.v1" "GPK" "/").
  - right. left.
  - simpl. repeat constructor;
      rewrite !not_elem_of_cons;
      repeat split; try discriminate; apply not_elem_of_nil.
  - simpl. repeat constructor;
      rewrite !not_elem_of_cons;
      repeat split; try discriminate; apply not_elem_of_nil.
Defined.

(** ** Reading back a written index *)

Lemma le_uint_le16 x : 0 <= x < 2 ^ 16 -> le_uint (le16 x) = x.
Proof.
  intros H. unfold le16, le_uint. cbn [foldr].
  Z.div_mod_to_equations. lia.
Qed.

Lemma le_uint_single x : le_uint [x] = x.
Proof. unfold le_uint. cbn [foldr]. lia. Qed.

(** The header decoder is the inverse of the packed little-endian
    layout: every member in the range of its C type is read back, at the
    offsets 0, 2, 4, 6, 10, 14, 18 and 22; bytes after the 23rd are not
    looked at. *)
Lemma header_decode_encode (h : GPKEntryHeader) (rest : list Z) :
  header_in_range h ->
  vsize (encode_header h) = sizeof_GPKEntryHeader
  /\ GPKEntryHeader_of_bytes (encode_header h ++ rest) = h.
Proof.
  intros (Hs & Hv & Hz & Ho & Hc & Hd & Hu & Hk).
  destruct h as [sv ve ze off cl df ul ch]. simpl in *.
  destruct df as [|d0 [|d1 [|d2 [|d3 [|d4 df]]]]]; try discriminate.
  split; [reflexivity|].
  unfold GPKEntryHeader_of_bytes, encode_header. simpl dflt.
  cbv [sub_version version zero offset comprlen uncomprlen comprheadlen].
  change (member_bytes GPKEntryHeader_fields "sub_version" _)
    with (le16 sv).
  change (member_bytes GPKEntryHeader_fields "version" _) with (le16 ve).
  change (member_bytes GPKEntryHeader_fields "zero" _) with (le16 ze).
  change (member_bytes GPKEntryHeader_fields "offset" _) with (le32 off).
  change (member_bytes GPKEntryHeader_fields "comprlen" _) with (le32 cl).
  change (member_bytes GPKEntryHeader_fields "dflt" _)
    with [d0; d1; d2; d3].
  change (member_bytes GPKEntryHeader_fields "uncomprlen" _)
    with (le32 ul).
  change (member_bytes GPKEntryHeader_fields "comprheadlen" _) with [ch].
  rewrite !le_uint_le16, !le_uint_le32, le_uint_single by assumption.
  reflexivity.
Qed.

Lemma utf16le_encode_vsize units :
  vsize (utf16le_encode units) = 2 * vsize units.
Proof.
  unfold vsize, utf16le_encode.
  induction units as [|u units IH]; [reflexivity|].
  cbn [fmap list_fmap concat]. rewrite length_app.
  cbn [length] in *. lia.
Qed.

Lemma valid_char_not_nul c :
  is_valid_char c = true -> (byte_of c =? 0) = false.
Proof.
  unfold is_valid_char. intros H.
  destruct (Z.leb_spec 32 (byte_of c)); [|discriminate].
  apply Z.eqb_neq. lia.
Qed.

Lemma clean_filename_kept cs :
  Forall kept_byte cs ->
  clean_filename (string_of_bytes cs) = string_of_bytes cs.
Proof.
  unfold clean_filename.
  induction 1 as [|c cs [_ Hc] _ IH]; [reflexivity|].
  cbn [string_of_bytes erase_from_nul].
  rewrite (valid_char_not_nul _ Hc). cbn [clean_chars].
  rewrite Hc, IH. reflexivity.
Qed.

Lemma kept_byte_ascii cs :
  Forall kept_byte cs -> Forall (fun c => 0 <= c < 128) cs.
Proof.
  intros H. eapply Forall_impl; [exact H|]. now intros c [Hc _].
Qed.

Lemma vsize_app {A} (l k : list A) : vsize (l ++ k) = vsize l + vsize k.
Proof. unfold vsize. rewrite length_app. lia. Qed.

Lemma encode_entry_vsize entry :
  header_in_range (snd entry) ->
  vsize (encode_entry entry)
  = 2 + 2 * vsize (fst entry) + sizeof_GPKEntryHeader.
Proof.
  intros Hh. unfold encode_entry.
  rewrite !vsize_app, utf16le_encode_vsize.
  rewrite (proj1 (header_decode_encode _ [] Hh)).
  change (vsize (le16 _)) with 2. lia.
Qed.

(** The loop body on a written record found at the cursor: the cursor
    moves to the end of the record and the entry is appended, name and
    header as written. *)
Lemma parse_body_record pre entry post entries :
  writable_entry entry ->
  vsize (pre ++ encode_entry entry ++ post) <= vector_max_size ->
  parse_body (pre ++ encode_entry entry ++ post) (vsize pre) entries
  = Continue (vsize pre + vsize (encode_entry entry))
      (entries ++ [entry_of entry]).
Proof.
  intros (Hne & Hlen & Hkept & Hh) Hsize.
  destruct entry as [cs h]. simpl fst in *. simpl snd in *.
  pose proof (encode_entry_vsize (cs, h) Hh) as Hrec. simpl fst in Hrec.
  rewrite sizeof_GPKEntryHeader_eq in Hrec.
  pose proof (vsize_nonneg pre) as Hpre.
  pose proof (vsize_nonneg post) as Hpost.
  pose proof (vsize_nonneg cs) as Hcs.
  rewrite !vsize_app in Hsize. unfold vector_max_size in Hsize.
  set (buf := pre ++ encode_entry (cs, h) ++ post).
  assert (Hbuf : vsize buf
                 = vsize pre + (2 + 2 * vsize cs + 23) + vsize post)
    by (unfold buf; rewrite !vsize_app; lia).
  assert (Hshape : buf
                   = pre ++ le16 (vsize cs)
                     ++ (utf16le_encode cs ++ encode_header h ++ post)).
  { unfold buf, encode_entry. simpl fst. simpl snd.
    now rewrite <- !app_assoc. }
  assert (Hn : filename_len_at buf (vsize pre) = vsize cs).
  { unfold filename_len_at. rewrite sizeof_uint16_t_eq, Hshape.
    change 2 with (vsize (le16 (vsize cs))).
    rewrite slice_app_middle. apply le_uint_le16. lia. }
  assert (Hname : utf16le_to_utf8 (drop (Z.to_nat (vsize pre + 2)) buf)
                    (vsize cs)
                  = string_of_bytes cs).
  { rewrite Hshape, app_assoc.
    replace (Z.to_nat (vsize pre + 2))
      with (length (pre ++ le16 (vsize cs)))
      by (rewrite length_app; unfold vsize; simpl; lia).
    rewrite drop_app_length.
    unfold utf16le_to_utf8, vsize. rewrite Nat2Z.id.
    rewrite utf16_units_encode
      by (eapply Forall_impl; [exact (kept_byte_ascii _ Hkept)|];
          simpl; intros; lia).
    now rewrite utf8_of_units_ascii by exact (kept_byte_ascii _ Hkept). }
  assert (Hhdr : slice buf (vsize pre + 2 + vsize cs * 2) 23
                 = encode_header h).
  { unfold buf, encode_entry. simpl fst. simpl snd.
    rewrite !app_assoc.
    rewrite <- (app_assoc _ (encode_header h) post).
    replace (vsize pre + 2 + vsize cs * 2)
      with (vsize ((pre ++ le16 (vsize cs)) ++ utf16le_encode cs))
      by (rewrite !vsize_app, utf16le_encode_vsize;
          change (vsize (le16 _)) with 2; lia).
    replace 23 with (vsize (encode_header h))
      by (exact (proj1 (header_decode_encode h [] Hh))).
    apply slice_app_middle. }
  unfold parse_body. rewrite Hn.
  rewrite sizeof_uint16_t_eq, sizeof_GPKEntryHeader_eq.
  rewrite (size_add_small (vsize pre) 2) by lia.
  destruct (Z.gtb_spec (vsize pre + 2) (vsize buf)); [lia|].
  destruct (Z.eqb_spec (vsize cs) 0) as [Hz|_].
  { destruct cs; [contradiction | discriminate Hz]. }
  rewrite (size_add_small (vsize pre + 2) (vsize cs * 2)) by lia.
  destruct (Z.gtb_spec (vsize pre + 2 + vsize cs * 2) (vsize buf)); [lia|].
  rewrite Hname, (clean_filename_kept cs Hkept).
  rewrite (size_add_small (vsize pre + 2 + vsize cs * 2) 23) by lia.
  destruct (String.eqb_spec (string_of_bytes cs) EmptyString) as [He|_].
  { destruct cs; [contradiction | discriminate He]. }
  destruct (Z.gtb_spec (vsize pre + 2 + vsize cs * 2 + 23) (vsize buf));
    [lia|].
  rewrite Hhdr.
  pose proof (proj2 (header_decode_encode h [] Hh)) as Hdec.
  rewrite app_nil_r in Hdec. rewrite Hdec.
  unfold entry_of. simpl fst. simpl snd.
  f_equal. lia.
Qed.

Lemma parse_loop_records recs : forall pre old tail fuel,
  Forall writable_entry recs ->
  vsize (pre ++ concat (encode_entry <$> recs) ++ [0; 0] ++ tail)
    <= vector_max_size ->
  (length recs < fuel)%nat ->
  parse_loop fuel
    (pre ++ concat (encode_entry <$> recs) ++ [0; 0] ++ tail)
    (vsize pre) old
  = Some (old ++ (entry_of <$> recs)).
Proof.
  induction recs as [|rec recs IH]; intros pre old tail fuel Hw Hsize Hfuel.
  - destruct fuel as [|fuel]; [simpl in Hfuel; lia|].
    cbn [fmap list_fmap concat app] in *.
    unfold vector_max_size in Hsize.
    pose proof (vsize_nonneg pre). pose proof (vsize_nonneg tail).
    assert (Hbuf : vsize (pre ++ 0 :: 0 :: tail) = vsize pre + 2 + vsize tail)
      by (rewrite vsize_app; unfold vsize; cbn [length]; lia).
    rewrite Hbuf in Hsize. rewrite app_nil_r.
    cbn [parse_loop].
    destruct (Z.ltb_spec (vsize pre) (vsize (pre ++ 0 :: 0 :: tail)));
      [|lia].
    unfold parse_body. rewrite sizeof_uint16_t_eq.
    rewrite size_add_small by lia.
    destruct (Z.gtb_spec (vsize pre + 2) (vsize (pre ++ 0 :: 0 :: tail)));
      [lia|].
    replace (filename_len_at (pre ++ 0 :: 0 :: tail) (vsize pre)) with 0;
      [reflexivity|].
    unfold filename_len_at. rewrite sizeof_uint16_t_eq.
    change (pre ++ 0 :: 0 :: tail) with (pre ++ [0; 0] ++ tail).
    change 2 with (vsize [0; 0]). rewrite slice_app_middle. reflexivity.
  - inversion Hw as [|? ? Hrec Hrecs]; subst.
    destruct fuel as [|fuel]; [simpl in Hfuel; lia|].
    cbn [fmap list_fmap concat] in *.
    rewrite <- (app_assoc (encode_entry rec)) in *.
    assert (Hlen : 2 <= vsize (encode_entry rec)).
    { rewrite encode_entry_vsize by apply Hrec.
      rewrite sizeof_GPKEntryHeader_eq.
      pose proof (vsize_nonneg (fst rec)). lia. }
    cbn [parse_loop].
    destruct (Z.ltb_spec (vsize pre)
                (vsize (pre ++ encode_entry rec
                        ++ concat (encode_entry <$> recs)
                        ++ [0; 0] ++ tail))) as [_|Hge];
      [|rewrite (vsize_app pre), (vsize_app (encode_entry rec)) in Hge;
        pose proof (vsize_nonneg
                      (concat (encode_entry <$> recs) ++ [0; 0] ++ tail));
        lia].
    rewrite parse_body_record by assumption.
    rewrite <- vsize_app.
    rewrite (app_assoc pre (encode_entry rec)).
    rewrite (app_assoc pre (encode_entry rec)) in Hsize.
    rewrite (IH (pre ++ encode_entry rec) (old ++ [entry_of rec]) tail fuel
               Hrecs Hsize ltac:(simpl in Hfuel; lia)).
    now rewrite <- app_assoc.
Qed.

Lemma encode_index_longer recs :
  (length recs < length (encode_index recs))%nat.
Proof.
  unfold encode_index. rewrite length_app. cbn [length].
  induction recs as [|rec recs IH]; [simpl; lia|].
  cbn [fmap list_fmap concat length]. rewrite length_app.
  unfold encode_entry at 1. rewrite length_app.
  change (length (le16 _)) with 2%nat. lia.
Qed.

(** Parsing a written index gives back its entries: for records with
    non-empty names of kept ASCII characters and headers in range,
    followed by the zero length prefix, the parse loop run as [load] runs
    it appends exactly those entries, names and headers as written, in
    order.  Bytes after the terminator are ignored. *)
Theorem parse_loop_encode_index (recs : list (list Z * GPKEntryHeader))
    (tail : list Z) (old : list GPKentry) :
  Forall writable_entry recs ->
  vsize (encode_index recs ++ tail) <= vector_max_size ->
  parse_loop (length (encode_index recs ++ tail))
    (encode_index recs ++ tail) 0 old
  = Some (old ++ (entry_of <$> recs)).
Proof.
  intros Hw Hsize.
  pose proof (encode_index_longer recs) as Hlen.
  unfold encode_index in *. rewrite <- app_assoc in *.
  apply (parse_loop_records recs [] old tail); [exact Hw | exact Hsize |].
  rewrite !length_app in *. lia.
Qed.

Lemma entry_ab_writable : writable_entry entry_ab.
Proof.
  unfold writable_entry, entry_ab, header_in_range, kept_byte. simpl.
  split; [discriminate|]. split; [reflexivity|].
  split; [repeat constructor; (lia || reflexivity)|].
  repeat split; (lia || reflexivity).
Qed.

Lemma parse_loop_encode_index_witness :
  parse_loop (length (encode_index [entry_ab] ++ [7; 7]))
    (encode_index [entry_ab] ++ [7; 7]) 0 []
  = Some ([] ++ (entry_of <$> [entry_ab])).
Proof.
  apply (parse_loop_encode_index [entry_ab] [7; 7] []).
  - constructor; [exact entry_ab_writable | constructor].
  - discriminate.
Defined.

(** ** Loading a written archive *)

Lemma be32_bytes n : Forall is_byte (be32 n).
Proof.
  unfold be32, is_byte. repeat constructor; apply Z.mod_pos_bound; lia.
Qed.

Lemma declared_size_be32 n rest :
  0 <= n < 2 ^ 32 -> declared_size (be32 n ++ rest) = n.
Proof.
  intros Hn. unfold be32. cbn [app].
  rewrite declared_size_big_endian
    by (unfold is_byte; apply Z.mod_pos_bound; lia).
  Z.div_mod_to_equations. lia.
Qed.

Lemma decompress_envelope (uncompress : codec) n zstream payload :
  0 < n < 2 ^ 32 ->
  uncompress n zstream = (Z_OK, payload) ->
  decompress_data uncompress (be32 n ++ zstream) = inr payload.
Proof.
  intros Hn Hok. unfold decompress_data.
  rewrite declared_size_be32 by lia.
  assert (Hlen : 4 <= vsize (be32 n ++ zstream)).
  { rewrite vsize_app. change (vsize (be32 n)) with 4.
    pose proof (vsize_nonneg zstream). lia. }
  destruct (Z.ltb_spec (vsize (be32 n ++ zstream)) 4); [lia|].
  destruct (Z.eqb_spec n 0); [lia|].
  change (drop 4 (be32 n ++ zstream)) with zstream.
  rewrite Hok. simpl. f_equal. apply resize_store.
Qed.

(** The archive round trip, as a lemma for the results below. *)
Lemma load_written (uncompress : codec)
    (fs : gmap string (list Z)) (file_name : string) (this : GPK)
    (body zstream : list Z) (recs : list (list Z * GPKEntryHeader)) :
  let index := encode_index recs in
  let blob := decrypt (be32 (vsize index) ++ zstream) in
  let content := body ++ blob ++ trailer_bytes (vsize blob) in
  fs !! file_name = Some content ->
  vsize content <= vector_max_size ->
  vsize blob < 2 ^ 32 ->
  vsize index < 2 ^ 32 ->
  Forall is_byte zstream ->
  Forall writable_entry recs ->
  uncompress (vsize index) zstream = (Z_OK, index) ->
  load uncompress fs this file_name
  = Some (true,
          {| entries := entries this ++ (entry_of <$> recs);
             archive_name := file_name |}).
Proof.
  intros index blob content Hfs Hsize Hblob Hindex Hz Hw Hok.
  destruct (valid_trailer_blob fs file_name body blob Hfs Hsize Hblob)
    as (Hsig & _ & Hread).
  unfold load. rewrite Hsig, Hread. unfold load_index.
  assert (Hdec : decrypt blob = be32 (vsize index) ++ zstream).
  { unfold blob, decrypt. apply decrypt_from_involutive.
    apply Forall_app. split; [apply be32_bytes | exact Hz]. }
  rewrite Hdec.
  pose proof (encode_index_longer recs) as Hlen. fold index in Hlen.
  assert (Hpos : 0 < vsize index) by (unfold vsize; lia).
  rewrite (decompress_envelope uncompress (vsize index) zstream index)
    by (lia || exact Hok).
  assert (Hmax : vsize index <= vector_max_size)
    by (unfold vector_max_size; lia).
  assert (Hparse : parse_loop (length index) index 0 (entries this)
                   = Some (entries this ++ (entry_of <$> recs))).
  { unfold index, encode_index in *.
    rewrite <- (app_nil_r [0; 0]) at 1 2.
    apply (parse_loop_records recs [] (entries this) []);
      [exact Hw | rewrite app_nil_r; exact Hmax |].
    rewrite length_app in Hlen. cbn [length] in Hlen.
    rewrite !length_app. cbn [length]. lia. }
  cbn [entries archive_name]. rewrite Hparse. reflexivity.
Qed.

(** Loading an archive written the way the reader expects it: payload
    bytes, then the XOR-encrypted envelope (big-endian size and a stream
    that the codec inflates to the index), then the trailer.  [load]
    returns true, records the path, and appends exactly the entries of
    the index, in order. *)
Theorem load_written_archive (uncompress : codec)
    (fs : gmap string (list Z)) (file_name : string) (this : GPK)
    (body zstream : list Z) (recs : list (list Z * GPKEntryHeader)) :
  let index := encode_index recs in
  let blob := decrypt (be32 (vsize index) ++ zstream) in
  let content := body ++ blob ++ trailer_bytes (vsize blob) in
  fs !! file_name = Some content ->
  vsize content <= vector_max_size ->
  vsize blob < 2 ^ 32 ->
  vsize index < 2 ^ 32 ->
  Forall is_byte zstream ->
  Forall writable_entry recs ->
  uncompress (vsize index) zstream = (Z_OK, index) ->
  load uncompress fs this file_name
  = Some (true,
          {| entries := entries this ++ (entry_of <$> recs);
             archive_name := file_name |}).
Proof.
  intros index blob content Hfs Hsize Hblob Hindex Hz Hw Hok.
  apply (load_written uncompress fs file_name this body zstream recs);
    assumption.
Qed.

Lemma load_written_archive_witness :
  load StoredZlib.uncompress fs_written (mkGPK [] EmptyString) "packs/w.GPK"
  = Some (true,
          {| entries := [] ++ (entry_of <$> [entry_ab]);
             archive_name := "packs/w.GPK" |}).
Proof.
  apply (load_written_archive StoredZlib.uncompress fs_written
           "packs/w.GPK" (mkGPK [] EmptyString) [170; 187; 204]
           (zlib_stored (encode_index [entry_ab])) [entry_ab]).
  - reflexivity.
  - discriminate.
  - reflexivity.
  - reflexivity.
  - unfold is_byte. vm_compute. repeat constructor; discriminate.
  - constructor; [exact entry_ab_writable | constructor].
  - vm_compute. reflexivity.
Defined.



(** The end-to-end scenario: the written archive with the entry
    [a/b.bin] and the payload [AA BB CC] is loaded and extracted to one
    file with those three bytes. *)
Example load_then_unpack_all_calls :
  exists this,
    load StoredZlib.uncompress fs_written (mkGPK [] EmptyString)
      "packs/w.GPK" = Some (true, this)
    /\ unpack_all (quiet_env fs_written (fun _ => true)) parent_of this
         "out/" []
       = (Returned,
          [ Create_directories "out/"; Create_directories "out/a";
            Write_file "out/a/b.bin" [170; 187; 204] ]).
Proof. eexists. split; vm_compute; reflexivity. Qed.

(** ** Stability of the clean-up *)

Lemma string_filter_idempotent (p : ascii -> bool) s :
  string_filter p (string_filter p s) = string_filter p s.
Proof.
  induction s as [|c s IH]; [reflexivity|]. simpl.
  destruct (p c) eqn:E; [|exact IH]. simpl. now rewrite E, IH.
Qed.

Lemma erase_from_nul_valid s :
  Forall (fun c => is_valid_char c = true) (list_ascii_of_string s) ->
  erase_from_nul s = s.
Proof.
  induction s as [|c s IH]; intros H; [reflexivity|].
  inversion H as [|? ? Hc Hs]; subst. simpl.
  rewrite (valid_char_not_nul c Hc), (IH Hs). reflexivity.
Qed.

(** Cleaning a name twice changes nothing more: a cleaned name is a fixed
    point of the clean-up, so names made only of kept characters (which
    include the dot and the slash, hence [..] components and a leading
    slash) pass through unchanged. *)
Theorem clean_filename_idempotent (filename : string) :
  clean_filename (clean_filename filename) = clean_filename filename.
Proof.
  unfold clean_filename. rewrite !clean_chars_filter.
  rewrite erase_from_nul_valid by apply string_filter_valid.
  apply string_filter_idempotent.
Qed.

(** ** [FileSystem] *)

Lemma prefix_append r x : String.prefix r (String.append r x) = true.
Proof.
  induction r as [|a r IH]; [destruct x; reflexivity|].
  simpl. destruct (ascii_dec a a); [exact IH | contradiction].
Qed.

Lemma append_assoc_string a b c :
  String.append (String.append a b) c = String.append a (String.append b c).
Proof.
  induction a as [|x a IH]; [reflexivity|].
  change (String.append (String.append (String x a) b) c)
    with (String x (String.append (String.append a b) c)).
  now rewrite IH.
Qed.

Section FileSystemUnpack.

Variable windows : bool.
Variable env : environment.
Variable parent_path : string -> string.

Lemma FileSystem_unpack_gpks_calls (this : FileSystem) gpks0 : forall h,
  (forall gpk, gpk ∈ gpks0 -> gpk ∈ gpks this) ->
  exists new,
    snd (FileSystem_unpack_gpks windows env parent_path (root this)
           gpks0 h) = h ++ new
    /\ Forall (mounted_output windows this) new.
Proof.
  induction gpks0 as [|gpk rest IH]; intros h Hsub.
  - exists []. split; [now rewrite app_nil_r | constructor].
  - cbn [FileSystem_unpack_gpks].
    set (outputDir := String.append (root this)
                        (String.append (getName gpk)
                           (PATH_SEPARATOR_STR windows))).
    destruct (unpack_all_steps env parent_path gpk outputDir h)
      as (new1 & Heq & Hnew1).
    assert (Hout : Forall (mounted_output windows this) new1).
    { eapply Forall_impl; [exact Hnew1|]. intros ev Hev.
      destruct ev as [p|p|p content|p]; simpl in *; try exact I;
        destruct Hev as (e & He & ->); exists gpk, e;
        (split; [apply Hsub; left | split; [exact He | reflexivity]]). }
    destruct (unpack_all env parent_path gpk outputDir h) as [[|] h1];
      cbn [snd] in Heq; subst h1.
    + destruct (IH (h ++ new1)) as (new2 & Heq2 & Hnew2);
        [intros g Hg; apply Hsub; now right|].
      rewrite Heq2, <- app_assoc.
      eexists. split; [reflexivity | now apply Forall_app].
    + exists new1. split; [reflexivity | exact Hout].
Qed.

(** Every path that [FileSystem::unpack_all] passes to [std::ofstream]
    is [root + getName() + PATH_SEPARATOR_STR + name] for a mounted
    archive and one of its entries, so the root string is a prefix of it.
    This is a fact about the path strings only: entry names may hold
    [..] components, and the file such a path opens can lie outside the
    root directory. *)
Theorem FileSystem_unpack_all_paths (this : FileSystem)
    (h : list fs_event) :
  exists new,
    snd (FileSystem_unpack_all windows env parent_path this h) = h ++ new
    /\ Forall (mounted_output windows this) new
    /\ Forall (fun ev =>
                 match ev with
                 | Write_file p _ | Open_failed p =>
                     String.prefix (root this) p = true
                 | _ => True
                 end) new.
Proof.
  destruct (FileSystem_unpack_gpks_calls this (gpks this) h)
    as (new & Heq & Hnew); [auto|].
  exists new. split; [exact Heq|]. split; [exact Hnew|].
  eapply Forall_impl; [exact Hnew|]. intros ev Hev.
  destruct ev as [p|p|p content|p]; simpl in *; try exact I;
    destruct Hev as (gpk & e & _ & _ & ->);
    rewrite append_assoc_string; apply prefix_append.
Qed.

End FileSystemUnpack.

Lemma find_char_from_first c pre rest : forall i,
  ~ In c (list_ascii_of_string pre) ->
  find_char_from c (String.append pre (String c rest)) i
  = Some (i + String.length pre)%nat.
Proof.
  induction pre as [|a pre IH]; intros i Hpre.
  - simpl. rewrite Ascii.eqb_refl. f_equal. lia.
  - simpl in *. destruct (Ascii.eqb_spec a c) as [->|_]; [tauto|].
    rewrite IH by tauto. f_equal. lia.
Qed.

Lemma find_char_from_absent c s : forall i,
  ~ In c (list_ascii_of_string s) -> find_char_from c s i = None.
Proof.
  induction s as [|a s IH]; intros i Hs; [reflexivity|].
  simpl in *. destruct (Ascii.eqb_spec a c) as [->|_]; [tauto|].
  apply IH. tauto.
Qed.

Lemma append_empty_r s : String.append s EmptyString = s.
Proof.
  induction s as [|a s IH]; [reflexivity|].
  change (String.append (String a s) EmptyString)
    with (String a (String.append s EmptyString)).
  now rewrite IH.
Qed.

(** [normalize_name] decides by the first path component only: a name
    without a slash is returned unchanged whatever it starts with, and a
    name [pkg/rest] gets the suffix that belongs to [pkg]; the name itself
    is never altered, only extended. *)
Theorem normalize_name_first_component (pkg rest name : string) :
  ~ In "/"%char (list_ascii_of_string pkg) ->
  ~ In "/"%char (list_ascii_of_string name) ->
  normalize_name name = name
  /\ normalize_name (String.append pkg (String "/" rest))
     = normalize_name_in pkg (String.append pkg (String "/" rest))
  /\ exists suffix,
       In suffix [ ""; ".ogg"; "_loop.ogg"; ".PNG" ]%string
       /\ normalize_name (String.append pkg (String "/" rest))
          = String.append (String.append pkg (String "/" rest)) suffix.
Proof.
  intros Hpkg Hname.
  assert (H1 : normalize_name name = name)
    by (unfold normalize_name, find_char;
        now rewrite find_char_from_absent).
  assert (H2 : normalize_name (String.append pkg (String "/" rest))
               = normalize_name_in pkg
                   (String.append pkg (String "/" rest))).
  { unfold normalize_name, find_char.
    rewrite find_char_from_first by exact Hpkg.
    cbn [Nat.add]. now rewrite substring_before. }
  split; [exact H1|]. split; [exact H2|].
  rewrite H2. unfold normalize_name_in.
  set (full := String.append pkg (String "/" rest)).
  pose proof (append_empty_r full) as Hnil.
  destruct (_ || _).
  - exists ".ogg"%string. split; [simpl; tauto | reflexivity].
  - destruct (String.eqb _ "BGM").
    + exists "_loop.ogg"%string. split; [simpl; tauto | reflexivity].
    + destruct (String.eqb _ "Event").
      * exists ".PNG"%string. split; [simpl; tauto | reflexivity].
      * exists ""%string. split; [simpl; tauto | now rewrite Hnil].
Qed.

Lemma normalize_name_first_component_witness :
  normalize_name "Voice" = "Voice"%string
  /\ normalize_name (String.append "Voice01" (String "/" "a/b"))
     = normalize_name_in "Voice01"
         (String.append "Voice01" (String "/" "a/b"))
  /\ exists suffix,
       In suffix [ ""; ".ogg"; "_loop.ogg"; ".PNG" ]%string
       /\ normalize_name (String.append "Voice01" (String "/" "a/b"))
          = String.append (String.append "Voice01" (String "/" "a/b"))
              suffix.
Proof.
  apply (normalize_name_first_component "Voice01" "a/b" "Voice").
  - simpl. intros H.
    repeat (destruct H as [H|H]; [discriminate H|]). exact H.
  - simpl. intros H.
    repeat (destruct H as [H|H]; [discriminate H|]). exact H.
Defined.

(** [mountGPK] mounts nothing for a file that does not open, is shorter
    than the trailer, or does not end with both signature strings: the
    list of mounted archives is left as it was. *)
Theorem mountGPK_bad_trailer (uncompress : codec)
    (fs : gmap string (list Z)) (this : FileSystem) (fileName : string) :
  fs !! fileName = None
  \/ (exists content,
        fs !! fileName = Some content
        /\ vsize content <= vector_max_size
        /\ (vsize content < 32
            \/ slice content (vsize content - 32) 12 <> ident0_bytes
            \/ slice content (vsize content - 16) 16 <> ident1_bytes)) ->
  mountGPK uncompress fs this fileName = Some this.
Proof.
  intros [Hnone|(content & Hfs & Hsize & Hbad)]; unfold mountGPK.
  - now rewrite load_unopenable.
  - unfold load.
    rewrite (read_signature_outcome fs fileName content Hfs Hsize).
    destruct (Z.leb_spec 32 (vsize content)); simpl; [|reflexivity].
    repeat case_bool_decide; simpl; try reflexivity.
    destruct Hbad as [H'|[H'|H']]; [lia | contradiction | contradiction].
Qed.

Lemma mountGPK_bad_trailer_witness :
  mountGPK StoredZlib.uncompress fs_three_bytes
    {| root := "game/"; gpks := [] |} "packs/s.GPK"
  = Some {| root := "game/"; gpks := [] |}.
Proof.
  apply (mountGPK_bad_trailer StoredZlib.uncompress fs_three_bytes
           {| root := "game/"; gpks := [] |} "packs/s.GPK").
  right. exists [1; 2; 3].
  split; [reflexivity|]. split; [discriminate|]. left. reflexivity.
Defined.

(** ** The assertions of [test.cpp] *)

(** [test_utf16le_conversion]: the ASCII text, the two-byte form of
    U+00E9 and the three-byte length of U+3042. *)
Example test_utf16le_conversion :
  utf16le_to_utf8 [72; 0; 101; 0; 108; 0; 108; 0; 111; 0] 5
  = "Hello"%string
  /\ utf16le_to_utf8 [233; 0] 1 = string_of_bytes [195; 169]
  /\ String.length (utf16le_to_utf8 [66; 48] 1) = 3%nat.
Proof. repeat split. Qed.

(** [test_gpk_signature]: the two signature constants. *)
Example test_gpk_signature :
  GPK_TAILER_IDENT0 = c_str "STKFile0PIDX"
  /\ GPK_TAILER_IDENT1 = c_str "STKFile0PACKFILE"
  /\ strlen GPK_TAILER_IDENT0 = 12%nat
  /\ strlen GPK_TAILER_IDENT1 = 16%nat.
Proof. repeat split. Qed.
